(** * The lottery contract (src/contract/src/contract.ts)

    A shallow embedding of the [Contract] class of the NEAR lottery sample
    and the properties of its state machine: enrolment, fees, the pot, the
    two-phase payout and the administrative calls. *)

From Stdlib Require Import ZArith QArith Lia Ascii String List.
From stdpp Require Import base decidable option gmap strings pretty.

Open Scope string_scope.
Open Scope Z_scope.

(** ** JavaScript numbers

    [contract.ts] passes the attached deposit, a [bigint], through
    [Number(...)] and back through [BigInt(...)].  [Number] of a [bigint]
    is the IEEE-754 double nearest to it, ties to the even significand; for
    an integer below 2^1024 that double is again an integer, so it is
    represented here by its value. *)

Module JS.

(** The integer with at most 53 significant bits that is nearest to the
    non-negative integer [x], ties to even. *)
Definition round53 (x : Z) : Z :=
  let e := Z.log2 x - 52 in
  if e <=? 0 then x
  else
    let q := x / 2 ^ e in
    let r := x mod 2 ^ e in
    let half := 2 ^ (e - 1) in
    if (half <? r) || ((r =? half) && Z.odd q)
    then (q + 1) * 2 ^ e
    else q * 2 ^ e.

(** [Number(x)] for a bigint [x]. *)
Definition Number (x : Z) : Z := Z.sgn x * round53 (Z.abs x).

(** [BigInt(d)] for a double [d] that holds an integer (it throws a
    RangeError otherwise), and for a bigint or a decimal string. *)
Definition BigInt (d : Z) : Z := d.

(** [s.length > 0] *)
Definition nonempty (s : string) : bool := negb (String.eqb s "").

End JS.

(** ** The modules [contract.ts] imports

    [./fee-strategies], [./lottery] and [./utils] are imported by the
    contract; the contract is verified against their interface, for every
    implementation of it. *)

Class Imports := {
  (** [./fee-strategies] *)
  StrategyType : Type;
  FeeStrategy : Type;
  (** [new FeeStrategy()] *)
  FeeStrategy_default : FeeStrategy;
  (** [new FeeStrategy(strategy)]; [None] when the constructor throws *)
  FeeStrategy_new : StrategyType -> option FeeStrategy;
  (** [FeeStrategy.from(s).calculate(scalar, base)] *)
  FeeStrategy_calculate : FeeStrategy -> Z -> Z -> Z;
  (** [./lottery] *)
  Chance : Type;
  Lottery : Type;
  (** [new Lottery()] *)
  Lottery_default : Lottery;
  (** [l.configure(chance)], the configured lottery; [None] when it throws *)
  Lottery_configure : Lottery -> Chance -> option Lottery;
  (** [Lottery.from(l).play()], against the host's random seed *)
  Lottery_play : Lottery -> string -> bool;
  (** [./utils] *)
  asNEAR : Z -> string;
  ONE_NEAR : Z;
  XCC_GAS : Z
}.

(** ** The host: what [near.*] reads and what it records *)

(** What the host tells one call. [attachedDeposit] is a u128. *)
Record Env := {
  signerAccountId : string;
  predecessorAccountId : string;
  currentAccountId : string;
  attachedDeposit : Z;
  randomSeed : string
}.

Definition u128 (x : Z) : Prop := 0 <= x < 2 ^ 128.

(** The host functions with an effect that the contract calls, as they are
    recorded in the receipt of one call. Promises are numbered in the order
    of their creation. *)
Inductive HostCall :=
| log (msg : string)
| promiseBatchCreate (accountId : string)
| promiseBatchActionTransfer (promise : nat) (amount : Z)
| promiseThen (promise : nat) (accountId methodName args : string)
              (amount gas : Z)
| promiseReturn (promise : nat).

(** The errors of the contract. The first three are failed [assert]s in
    the source, told apart there by their message only, and the fourth is
    what the imported modules throw; the constructors are the names the
    specification gives them. [TypeError] is what JavaScript throws when a
    property of [undefined] is read. *)
Inductive Error :=
| GameInactive (msg : string)
| InsufficientFee (msg : string)
| Unauthorized (msg : string)
| InvalidConfiguration
| TypeError (msg : string).

Inductive Outcome (A : Type) :=
| Returned (a : A)
| Thrown (e : Error).
Arguments Returned {A} a.
Arguments Thrown {A} e.

(** A template literal prints a field that was never assigned as
    [undefined]. *)
Definition template (s : option string) : string :=
  match s with Some s => s | None => "undefined" end.

Section Contract.

Context `{Imports}.

(** *** The contract's fields

    [winner] and [lastPlayed] have no initialiser and the constructor does
    not assign them: they are [undefined] ([None]) until a play or a reset
    writes them. [players] is the SDK's [UnorderedSet]. *)
Record Contract := {
  owner : string;
  winner : option string;
  lastPlayed : option string;
  active : bool;
  pot : Z;
  lottery : Lottery;
  feeStrategy : FeeStrategy;
  players : gset string
}.

Definition set_winner (w : string) (c : Contract) : Contract :=
  {| owner := owner c; winner := Some w; lastPlayed := lastPlayed c;
     active := active c; pot := pot c; lottery := lottery c;
     feeStrategy := feeStrategy c; players := players c |}.

Definition set_lastPlayed (p : string) (c : Contract) : Contract :=
  {| owner := owner c; winner := winner c; lastPlayed := Some p;
     active := active c; pot := pot c; lottery := lottery c;
     feeStrategy := feeStrategy c; players := players c |}.

Definition set_active (b : bool) (c : Contract) : Contract :=
  {| owner := owner c; winner := winner c; lastPlayed := lastPlayed c;
     active := b; pot := pot c; lottery := lottery c;
     feeStrategy := feeStrategy c; players := players c |}.

Definition set_pot (p : Z) (c : Contract) : Contract :=
  {| owner := owner c; winner := winner c; lastPlayed := lastPlayed c;
     active := active c; pot := p; lottery := lottery c;
     feeStrategy := feeStrategy c; players := players c |}.

Definition set_lottery (l : Lottery) (c : Contract) : Contract :=
  {| owner := owner c; winner := winner c; lastPlayed := lastPlayed c;
     active := active c; pot := pot c; lottery := l;
     feeStrategy := feeStrategy c; players := players c |}.

Definition set_feeStrategy (f : FeeStrategy) (c : Contract) : Contract :=
  {| owner := owner c; winner := winner c; lastPlayed := lastPlayed c;
     active := active c; pot := pot c; lottery := lottery c;
     feeStrategy := f; players := players c |}.

Definition set_players (ps : gset string) (c : Contract) : Contract :=
  {| owner := owner c; winner := winner c; lastPlayed := lastPlayed c;
     active := active c; pot := pot c; lottery := lottery c;
     feeStrategy := feeStrategy c; players := ps |}.

(** [new Contract({ owner })] *)
Definition constructor (o : string) : Contract :=
  {| owner := o; winner := None; lastPlayed := None; active := true;
     pot := ONE_NEAR; lottery := Lottery_default;
     feeStrategy := FeeStrategy_default; players := ∅ |}.

(** *** The monad of a method body

    A method runs on the contract object [this] and appends to the
    receipt; a failed [assert] stops it. The machine at the moment of the
    throw is kept, so that what a method did before it failed can be
    stated. *)
Record Vm := {
  this : Contract;
  receipt : list HostCall;
  promises : nat
}.

Definition M (A : Type) : Type := Vm -> Outcome A * Vm.

Definition ret {A} (a : A) : M A := fun vm => (Returned a, vm).

Definition bind {A B} (m : M A) (k : A -> M B) : M B :=
  fun vm =>
    match m vm with
    | (Returned a, vm') => k a vm'
    | (Thrown e, vm') => (Thrown e, vm')
    end.

Definition get {A} (field : Contract -> A) : M A :=
  fun vm => (Returned (field (this vm)), vm).

Definition assign (update : Contract -> Contract) : M unit :=
  fun vm =>
    (Returned tt,
     {| this := update (this vm); receipt := receipt vm;
        promises := promises vm |}).

Definition assert (b : bool) (e : Error) : M unit :=
  fun vm => if b then (Returned tt, vm) else (Thrown e, vm).

(** A host function that records a call. *)
Definition host (c : HostCall) : M unit :=
  fun vm =>
    (Returned tt,
     {| this := this vm; receipt := receipt vm ++ [c];
        promises := promises vm |}).

(** A host function that creates a promise and returns its index. *)
Definition host_promise (c : HostCall) : M nat :=
  fun vm =>
    (Returned (promises vm),
     {| this := this vm; receipt := receipt vm ++ [c];
        promises := S (promises vm) |}).

End Contract.

Declare Scope near_scope.
Delimit Scope near_scope with near.
Notation "x <- m ;; k" := (bind m (fun x => k))
  (at level 100, m at next level, right associativity) : near_scope.
Notation "m ;; k" := (bind m (fun _ => k))
  (at level 100, right associativity) : near_scope.

(** ** The methods of the contract *)

Section Methods.

Context `{Imports}.
Local Open Scope near_scope.

Definition throw {A} (e : Error) : M A := fun vm => (Thrown e, vm).

Definition assertSelf (env : Env) : M unit :=
  assert (String.eqb (predecessorAccountId env) (currentAccountId env))
         (Unauthorized "Only this contract may call this method").

Definition get_pot : M string :=
  p <- get pot ;;
  ret (asNEAR p +:+ " NEAR").

Definition fee : M Z :=
  fs <- get feeStrategy ;;
  ps <- get players ;;
  ret (FeeStrategy_calculate fs (Z.of_nat (size ps)) ONE_NEAR).

Definition increasePot (env : Env) : M unit :=
  p <- get pot ;;
  assign (set_pot (JS.BigInt p + JS.BigInt (JS.Number (attachedDeposit env)))).

Definition generateFeeMessage (fee : Z) : M string :=
  ps <- get players ;;
  ret ("There are " +:+ pretty (Z.of_nat (size ps))
       +:+ " players. Playing more than once now costs "
       +:+ asNEAR fee +:+ " NEAR").

Definition inactiveMessage (w : option string) (p : Z) : string :=
  template w +:+ " won " +:+ pretty p +:+ ". Please reset the game.".

Definition play (env : Env) : M unit :=
  a <- get active ;;
  w <- get winner ;;
  p <- get pot ;;
  assert a (GameInactive (inactiveMessage w p)) ;;
  let signer := signerAccountId env in
  let deposit := JS.BigInt (JS.Number (attachedDeposit env)) in
  ps <- get players ;;
  (if decide (signer ∈ ps) then
     f <- fee ;;
     msg <- generateFeeMessage f ;;
     assert (deposit >=? f) (InsufficientFee msg) ;;
     increasePot env
   else
     assign (fun c => set_players ({[signer]} ∪ players c) c)) ;;
  assign (set_lastPlayed signer) ;;
  l <- get lottery ;;
  if Lottery_play l (randomSeed env) then
    assign (set_winner signer) ;;
    w <- get winner ;;
    potNEAR <- get_pot ;;
    host (log (template w +:+ " won " +:+ potNEAR +:+ "!")) ;;
    match w with
    | Some winner_ =>
        if JS.nonempty winner_ then
          promise <- host_promise (promiseBatchCreate winner_) ;;
          p <- get pot ;;
          host (promiseBatchActionTransfer promise p) ;;
          then_ <- host_promise
                     (promiseThen promise (currentAccountId env)
                                  "on_payout_complete" "{}" 0 XCC_GAS) ;;
          host (promiseReturn then_)
        else ret tt
    | None => throw (TypeError "Cannot read properties of undefined")
    end
  else
    lp <- get lastPlayed ;;
    potNEAR <- get_pot ;;
    host (log (template lp +:+ " did not win.  The pot is currently "
               +:+ potNEAR)).

Definition configure_lottery (env : Env) (chance : Chance) : M bool :=
  assertSelf env ;;
  l <- get lottery ;;
  match Lottery_configure l chance with
  | Some l' => assign (set_lottery l') ;; ret true
  | None => throw InvalidConfiguration
  end.

Definition configure_fee (env : Env) (strategy : StrategyType) : M bool :=
  assertSelf env ;;
  match FeeStrategy_new strategy with
  | Some fs => assign (set_feeStrategy fs) ;; ret true
  | None => throw InvalidConfiguration
  end.

Definition reset (env : Env) : M unit :=
  assertSelf env ;;
  assign (set_players ∅) ;;
  assign (set_winner "") ;;
  assign (set_lastPlayed "") ;;
  assign (set_pot ONE_NEAR) ;;
  assign (set_active true).

Definition on_payout_complete (env : Env) : M unit :=
  assertSelf env ;;
  assign (set_active false) ;;
  host (log "game over.").

(** *** Calls, as the host makes them

    The host gives a method a fresh receipt, and keeps the contract as the
    method left it only when the method returned: the changes of a call
    that threw are discarded. *)

Inductive Call :=
| Play
| ConfigureLottery (chance : Chance)
| ConfigureFee (strategy : StrategyType)
| Reset
| OnPayoutComplete.

Definition start (c : Contract) : Vm :=
  {| this := c; receipt := []; promises := 0 |}.

Definition method (env : Env) (cl : Call) : M unit :=
  match cl with
  | Play => play env
  | ConfigureLottery chance => configure_lottery env chance ;; ret tt
  | ConfigureFee strategy => configure_fee env strategy ;; ret tt
  | Reset => reset env
  | OnPayoutComplete => on_payout_complete env
  end.

Definition call (env : Env) (cl : Call) (c : Contract) : Contract :=
  match method env cl (start c) with
  | (Returned _, vm) => this vm
  | (Thrown _, _) => c
  end.

Definition run (c : Contract) (calls : list (Env * Call)) : Contract :=
  fold_left (fun c ec => call (fst ec) (snd ec) c) calls c.

End Methods.

(** ** A reference implementation of the imported modules

    Used to run the contract on concrete calls. *)

Module Reference.

(** Modelled from the spec: [fee-strategies.ts] is not among the sources.
    The specification names the variants flat, linear and quadratic and
    gives the formula of the quadratic one, the default:
    [fee = baseUnit * enrolledCount^2]; the other two follow their names.
    No variant of this type is unrecognised. *)
Inductive StrategyType := Flat | Linear | Quadratic.

Definition calculate (s : StrategyType) (enrolledCount baseUnit : Z) : Z :=
  match s with
  | Flat => baseUnit
  | Linear => baseUnit * enrolledCount
  | Quadratic => baseUnit * enrolledCount ^ 2
  end.

(** Modelled from the spec: [lottery.ts] is not among the sources. The
    lottery holds a chance in (0, 1]; [configure] rejects any other value;
    [play] takes one draw from the random seed, read as a fraction in
    [0, 1), and wins when the draw is below the chance. The specification
    gives no default chance; one in five is taken here. *)
Record Lottery := { chance : Q }.

Definition configure (l : Lottery) (c : Q) : option Lottery :=
  if Qlt_le_dec 0 c then
    if Qlt_le_dec 1 c then None else Some {| chance := c |}
  else None.

Fixpoint seed_value (acc : Z) (seed : string) : Z :=
  match seed with
  | EmptyString => acc
  | String b rest => seed_value (acc * 256 + Z.of_nat (nat_of_ascii b)) rest
  end.

Definition draw (seed : string) : Q :=
  Qmake (seed_value 0 seed) (Z.to_pos (256 ^ Z.of_nat (String.length seed))).

Definition lottery_play (l : Lottery) (seed : string) : bool :=
  if Qlt_le_dec (draw seed) (chance l) then true else false.

(** Modelled from the spec: [utils.ts] is not among the sources. The base
    unit [ONE_NEAR] is one NEAR in the smallest unit, yoctoNEAR; [asNEAR]
    formats an amount for the messages, here as its whole NEAR; [XCC_GAS]
    is the gas given to the callback. *)
Definition ONE_NEAR : Z := 10 ^ 24.
Definition asNEAR (amount : Z) : string := pretty (amount / ONE_NEAR).
Definition XCC_GAS : Z := 20000000000000.

#[global] Instance imports : Imports :=
  Build_Imports
    StrategyType StrategyType Quadratic Some calculate
    Q Lottery {| chance := 1 # 5 |} configure lottery_play
    asNEAR ONE_NEAR XCC_GAS.

(** Seeds: [winning_seed] draws 0, which wins under every chance in
    (0, 1]; [losing_seed] draws 255/256. *)
Definition winning_seed : string := String (ascii_of_nat 0) EmptyString.
Definition losing_seed : string := String (ascii_of_nat 255) EmptyString.

Definition contract_account : string := "lottery.testnet".

(** A call by [who] (signer and predecessor) attaching [deposit]. *)
Definition env (who : string) (deposit : Z) (seed : string) : Env :=
  {| signerAccountId := who; predecessorAccountId := who;
     currentAccountId := contract_account;
     attachedDeposit := deposit; randomSeed := seed |}.

End Reference.


(** ** What a call computes, in closed form *)

Section Derived.

Context `{Imports}.

Definition unauthorized : Error :=
  Unauthorized "Only this contract may call this method".

(** The caller is the contract's own account: what [assertSelf] checks. *)
Definition is_self (env : Env) : Prop :=
  predecessorAccountId env = currentAccountId env.

(** The fee [fee()] computes on contract [c]. *)
Definition fee_of (c : Contract) : Z :=
  FeeStrategy_calculate (feeStrategy c) (Z.of_nat (size (players c))) ONE_NEAR.

(** The deposit [play] compares with the fee and adds to the pot. *)
Definition deposit_of (env : Env) : Z :=
  JS.BigInt (JS.Number (attachedDeposit env)).

(** The message of the fee assertion on contract [c]. *)
Definition fee_message (c : Contract) : string :=
  "There are " +:+ pretty (Z.of_nat (size (players c)))
  +:+ " players. Playing more than once now costs "
  +:+ asNEAR (fee_of c) +:+ " NEAR".

(** The contract after the enrolment step of an accepted play. *)
Definition enrolled (env : Env) (c : Contract) : Contract :=
  if decide (signerAccountId env ∈ players c)
  then set_pot (pot c + deposit_of env) c
  else set_players ({[signerAccountId env]} ∪ players c) c.

(** The contract after an accepted play. *)
Definition played (env : Env) (c : Contract) : Contract :=
  let c' := set_lastPlayed (signerAccountId env) (enrolled env c) in
  if Lottery_play (lottery c) (randomSeed env)
  then set_winner (signerAccountId env) c'
  else c'.

(** The payout a winning play schedules, with [n] promises created
    before it. *)
Definition payout (env : Env) (amount : Z) (n : nat) : list HostCall :=
  [ promiseBatchCreate (signerAccountId env);
    promiseBatchActionTransfer n amount;
    promiseThen n (currentAccountId env) "on_payout_complete" "{}" 0 XCC_GAS;
    promiseReturn (S n) ].

(** The contract after a reset. *)
Definition fresh (c : Contract) : Contract :=
  {| owner := owner c; winner := Some ""; lastPlayed := Some "";
     active := true; pot := ONE_NEAR; lottery := lottery c;
     feeStrategy := feeStrategy c; players := ∅ |}.

(** The calls of one epoch, between two resets: the calls the statements
    on [winner] range over. *)
Definition in_epoch (ec : Env * Call) : Prop :=
  snd ec = Play \/ snd ec = OnPayoutComplete.

(** The host attaches a u128 to every call. *)
Definition well_formed (ec : Env * Call) : Prop :=
  u128 (attachedDeposit (fst ec)).

End Derived.

(** ** The view methods

    The views read [this] and return; [get_pot] is with the methods above,
    where [play] uses it. *)

Section Views.

Context `{Imports}.
Local Open Scope near_scope.

Definition get_owner : M string := get owner.

Definition get_fee : M string :=
  f <- fee ;;
  ret (asNEAR f +:+ " NEAR").

Definition get_has_played (player : string) : M bool :=
  ps <- get players ;;
  ret (bool_decide (player ∈ ps)).

Definition get_active : M bool := get active.

(** What a view returns on contract [c]. *)
Definition view {A} (m : M A) (c : Contract) : Outcome A := fst (m (start c)).

(** A call other than [reset]. *)
Definition not_reset (ec : Env * Call) : Prop := snd ec <> Reset.

(** The deposits, as [play] reads them, attached to the plays among
    [calls]. *)
Fixpoint attached_to_plays (calls : list (Env * Call)) : Z :=
  match calls with
  | [] => 0
  | (env, Play) :: rest => deposit_of env + attached_to_plays rest
  | _ :: rest => attached_to_plays rest
  end.

(** The message a winning play logs on the contract as the play leaves
    it, and the message a losing one logs. *)
Definition won_message (env : Env) (c : Contract) : string :=
  signerAccountId env +:+ " won " +:+ (asNEAR (pot c) +:+ " NEAR") +:+ "!".

Definition lost_message (env : Env) (c : Contract) : string :=
  signerAccountId env +:+ " did not win.  The pot is currently "
  +:+ (asNEAR (pot c) +:+ " NEAR").

(** The receipt of a play that returns, on contract [c]. *)
Definition play_receipt (env : Env) (c : Contract) : list HostCall :=
  if Lottery_play (lottery c) (randomSeed env)
  then log (won_message env (played env c))
       :: (if JS.nonempty (signerAccountId env)
           then payout env (pot (played env c)) 0 else [])
  else [log (lost_message env (played env c))].

(** The name held by a field is the empty string or an enrolled player. *)
Definition enrolled_or_empty (c : Contract) (name : option string) : Prop :=
  forall s, name = Some s -> s = "" \/ s ∈ players c.

End Views.

Ltac exec :=
  unfold method, play, reset, configure_lottery, configure_fee,
    on_payout_complete, assertSelf, increasePot, generateFeeMessage, fee,
    get_pot, bind, ret, get, assign, assert, host, host_promise, throw;
  simpl.

(** * Properties *)

Example Number_small : JS.Number 9007199254740992 = 9007199254740992.
Proof. reflexivity. Qed.

Example Number_2p53_plus_1 : JS.Number 9007199254740993 = 9007199254740992.
Proof. reflexivity. Qed.

Example Number_2p53_plus_3 : JS.Number 9007199254740995 = 9007199254740996.
Proof. reflexivity. Qed.

Example Number_1e24 :
  JS.Number 1000000000000000000000000 = 999999999999999983222784.
Proof. reflexivity. Qed.

Example reference_first_play :
  let c := call (Reference.env "alice" 0 Reference.losing_seed) Play
                (constructor "owner") in
  (pot c, size (players c), lastPlayed c, winner c, active c)
  = (10 ^ 24, 1%nat, Some "alice", None, true).
Proof. vm_compute. reflexivity. Qed.

(** ** Facts about [Number] *)

Lemma round53_nonneg (x : Z) : 0 <= x -> 0 <= JS.round53 x.
Proof.
  intros Hx. unfold JS.round53.
  destruct (Z.log2 x - 52 <=? 0) eqn:He; [exact Hx |].
  apply Z.leb_gt in He.
  assert (Hp : 0 < 2 ^ (Z.log2 x - 52)) by (apply Z.pow_pos_nonneg; lia).
  assert (Hq : 0 <= x / 2 ^ (Z.log2 x - 52)) by (apply Z.div_pos; lia).
  destruct (_ || _); nia.
Qed.

Lemma Number_nonneg (x : Z) : 0 <= x -> 0 <= JS.Number x.
Proof.
  intros Hx. unfold JS.Number.
  destruct (Z.eq_dec x 0) as [-> | Hne]; [reflexivity |].
  rewrite Z.sgn_pos, Z.abs_eq by lia.
  pose proof (round53_nonneg x Hx). lia.
Qed.

(** Up to 2^53 every integer is a double. *)
Lemma Number_exact (x : Z) : 0 <= x <= 2 ^ 53 -> JS.Number x = x.
Proof.
  intros [H0 H53]. unfold JS.Number.
  destruct (Z.eq_dec x 0) as [-> | Hne]; [reflexivity |].
  rewrite Z.sgn_pos, Z.abs_eq by lia. rewrite Z.mul_1_l.
  destruct (Z.eq_dec x (2 ^ 53)) as [-> | Hlt]; [reflexivity |].
  unfold JS.round53.
  assert (Hlog : Z.log2 x < 53) by (apply Z.log2_lt_pow2; lia).
  destruct (Z.log2 x - 52 <=? 0) eqn:He; [reflexivity |].
  apply Z.leb_gt in He. lia.
Qed.

(** ** How each method runs *)

Section Runs.

Context `{Imports}.

Lemma assertSelf_self (env : Env) (vm : Vm) :
  is_self env -> assertSelf env vm = (Returned tt, vm).
Proof.
  unfold is_self. intros Heq. exec.
  apply String.eqb_eq in Heq. rewrite Heq. reflexivity.
Qed.

Lemma assertSelf_other (env : Env) (vm : Vm) :
  ~ is_self env -> assertSelf env vm = (Thrown unauthorized, vm).
Proof.
  unfold is_self. intros Hne. exec.
  apply String.eqb_neq in Hne. rewrite Hne. reflexivity.
Qed.

Lemma play_inactive (env : Env) (vm : Vm) :
  active (this vm) = false ->
  play env vm
  = (Thrown (GameInactive (inactiveMessage (winner (this vm)) (pot (this vm)))),
     vm).
Proof. intros Ha. exec. rewrite Ha. reflexivity. Qed.

Lemma play_underpaid (env : Env) (vm : Vm) :
  active (this vm) = true ->
  signerAccountId env ∈ players (this vm) ->
  deposit_of env < fee_of (this vm) ->
  play env vm = (Thrown (InsufficientFee (fee_message (this vm))), vm).
Proof.
  intros Ha Hin Hlt. exec. rewrite Ha. simpl.
  destruct (decide _) as [_ | Hout]; [| contradiction]. simpl.
  fold (deposit_of env). fold (fee_of (this vm)).
  assert (Hge : (deposit_of env >=? fee_of (this vm)) = false).
  { rewrite Z.geb_leb. apply Z.leb_gt. exact Hlt. }
  rewrite Hge. reflexivity.
Qed.

Lemma play_accepted (env : Env) (vm : Vm) :
  active (this vm) = true ->
  (signerAccountId env ∈ players (this vm) ->
   fee_of (this vm) <= deposit_of env) ->
  exists rc n,
    play env vm
    = (Returned tt,
       {| this := played env (this vm); receipt := receipt vm ++ rc;
          promises := n |})
    /\ (Lottery_play (lottery (this vm)) (randomSeed env) = true ->
        JS.nonempty (signerAccountId env) = true ->
        exists msg,
          rc = log msg :: payout env (pot (played env (this vm)))
                                 (promises vm)).
Proof.
  intros Ha Hfee. exec. rewrite Ha. simpl. unfold played, enrolled.
  destruct (decide _) as [Hin | Hout]; simpl.
  - fold (deposit_of env). fold (fee_of (this vm)).
    assert (Hge : (deposit_of env >=? fee_of (this vm)) = true).
    { rewrite Z.geb_leb. apply Z.leb_le. auto. }
    rewrite Hge. simpl.
    destruct (Lottery_play _ _) eqn:Hwin; simpl.
    + destruct (JS.nonempty _) eqn:Hne; simpl.
      * eexists _, _. split.
        { rewrite <- !app_assoc. simpl. reflexivity. }
        intros _ _. eexists. reflexivity.
      * eexists _, _. split; [reflexivity |]. intros _ Hc. discriminate.
    + eexists _, _. split; [reflexivity |]. intros Hc. discriminate.
  - destruct (Lottery_play _ _) eqn:Hwin; simpl.
    + destruct (JS.nonempty _) eqn:Hne; simpl.
      * eexists _, _. split.
        { rewrite <- !app_assoc. simpl. reflexivity. }
        intros _ _. eexists. reflexivity.
      * eexists _, _. split; [reflexivity |]. intros _ Hc. discriminate.
    + eexists _, _. split; [reflexivity |]. intros Hc. discriminate.
Qed.

Lemma reset_self (env : Env) (vm : Vm) :
  is_self env ->
  reset env vm
  = (Returned tt,
     {| this := fresh (this vm); receipt := receipt vm;
        promises := promises vm |}).
Proof.
  intros Hs. unfold reset, bind at 1. rewrite (assertSelf_self env vm Hs).
  reflexivity.
Qed.

Lemma reset_other (env : Env) (vm : Vm) :
  ~ is_self env -> reset env vm = (Thrown unauthorized, vm).
Proof.
  intros Hs. unfold reset, bind at 1. rewrite (assertSelf_other env vm Hs).
  reflexivity.
Qed.

Lemma configure_lottery_other (env : Env) (chance : Chance) (vm : Vm) :
  ~ is_self env -> configure_lottery env chance vm = (Thrown unauthorized, vm).
Proof.
  intros Hs. unfold configure_lottery, bind at 1.
  rewrite (assertSelf_other env vm Hs). reflexivity.
Qed.

Lemma configure_lottery_self (env : Env) (chance : Chance) (vm : Vm) :
  is_self env ->
  configure_lottery env chance vm
  = match Lottery_configure (lottery (this vm)) chance with
    | Some l =>
        (Returned true,
         {| this := set_lottery l (this vm); receipt := receipt vm;
            promises := promises vm |})
    | None => (Thrown InvalidConfiguration, vm)
    end.
Proof.
  intros Hs. unfold configure_lottery, bind at 1.
  rewrite (assertSelf_self env vm Hs). exec.
  destruct (Lottery_configure _ _); reflexivity.
Qed.

Lemma configure_fee_other (env : Env) (strategy : StrategyType) (vm : Vm) :
  ~ is_self env -> configure_fee env strategy vm = (Thrown unauthorized, vm).
Proof.
  intros Hs. unfold configure_fee, bind at 1.
  rewrite (assertSelf_other env vm Hs). reflexivity.
Qed.

Lemma configure_fee_self (env : Env) (strategy : StrategyType) (vm : Vm) :
  is_self env ->
  configure_fee env strategy vm
  = match FeeStrategy_new strategy with
    | Some fs =>
        (Returned true,
         {| this := set_feeStrategy fs (this vm); receipt := receipt vm;
            promises := promises vm |})
    | None => (Thrown InvalidConfiguration, vm)
    end.
Proof.
  intros Hs. unfold configure_fee, bind at 1.
  rewrite (assertSelf_self env vm Hs). exec.
  destruct (FeeStrategy_new _); reflexivity.
Qed.

Lemma on_payout_complete_other (env : Env) (vm : Vm) :
  ~ is_self env -> on_payout_complete env vm = (Thrown unauthorized, vm).
Proof.
  intros Hs. unfold on_payout_complete, bind at 1.
  rewrite (assertSelf_other env vm Hs). reflexivity.
Qed.

Lemma on_payout_complete_self (env : Env) (vm : Vm) :
  is_self env ->
  on_payout_complete env vm
  = (Returned tt,
     {| this := set_active false (this vm);
        receipt := receipt vm ++ [log "game over."];
        promises := promises vm |}).
Proof.
  intros Hs. unfold on_payout_complete, bind at 1.
  rewrite (assertSelf_self env vm Hs). reflexivity.
Qed.

Lemma is_self_dec (env : Env) : {is_self env} + {~ is_self env}.
Proof. unfold is_self. apply String.string_dec. Qed.

(** *** What the host keeps of each call *)

Lemma call_play (env : Env) (c : Contract) :
  call env Play c = c
  \/ (active c = true
      /\ (signerAccountId env ∈ players c -> fee_of c <= deposit_of env)
      /\ call env Play c = played env c).
Proof.
  unfold call, method.
  destruct (active c) eqn:Ha.
  - destruct (decide (signerAccountId env ∈ players c
                      /\ deposit_of env < fee_of c)) as [[Hin Hlt] | Hok].
    + left. rewrite (play_underpaid env (start c)) by assumption. reflexivity.
    + right. split; [reflexivity |].
      assert (Hfee : signerAccountId env ∈ players c ->
                     fee_of c <= deposit_of env).
      { intros Hin. destruct (Z_lt_le_dec (deposit_of env) (fee_of c)); tauto. }
      split; [exact Hfee |].
      destruct (play_accepted env (start c) Ha Hfee) as (rc & n & Hrun & _).
      rewrite Hrun. reflexivity.
  - left. rewrite (play_inactive env (start c)) by exact Ha. reflexivity.
Qed.

Lemma call_reset (env : Env) (c : Contract) :
  call env Reset c = if is_self_dec env then fresh c else c.
Proof.
  unfold call, method. destruct (is_self_dec env) as [Hs | Hs].
  - rewrite reset_self by exact Hs. reflexivity.
  - rewrite reset_other by exact Hs. reflexivity.
Qed.

Lemma call_on_payout_complete (env : Env) (c : Contract) :
  call env OnPayoutComplete c
  = if is_self_dec env then set_active false c else c.
Proof.
  unfold call, method. destruct (is_self_dec env) as [Hs | Hs].
  - rewrite on_payout_complete_self by exact Hs. reflexivity.
  - rewrite on_payout_complete_other by exact Hs. reflexivity.
Qed.

Lemma call_configure_lottery (env : Env) (chance : Chance) (c : Contract) :
  call env (ConfigureLottery chance) c = c
  \/ exists l, call env (ConfigureLottery chance) c = set_lottery l c.
Proof.
  unfold call, method. unfold bind. destruct (is_self_dec env) as [Hs | Hs].
  - rewrite configure_lottery_self by exact Hs. simpl.
    destruct (Lottery_configure _ _) as [l |]; [right; exists l |left];
      reflexivity.
  - rewrite configure_lottery_other by exact Hs. left. reflexivity.
Qed.

Lemma call_configure_fee (env : Env) (strategy : StrategyType) (c : Contract) :
  call env (ConfigureFee strategy) c = c
  \/ exists fs, call env (ConfigureFee strategy) c = set_feeStrategy fs c.
Proof.
  unfold call, method. unfold bind. destruct (is_self_dec env) as [Hs | Hs].
  - rewrite configure_fee_self by exact Hs. simpl.
    destruct (FeeStrategy_new _) as [fs |]; [right; exists fs |left];
      reflexivity.
  - rewrite configure_fee_other by exact Hs. left. reflexivity.
Qed.

(** *** Fields of the contract after an accepted play *)

Lemma played_active (env : Env) (c : Contract) :
  active (played env c) = active c.
Proof.
  unfold played, enrolled.
  destruct (Lottery_play _ _), (decide _); reflexivity.
Qed.

Lemma played_pot (env : Env) (c : Contract) :
  pot (played env c)
  = if decide (signerAccountId env ∈ players c)
    then pot c + deposit_of env else pot c.
Proof.
  unfold played, enrolled.
  destruct (Lottery_play _ _), (decide _); reflexivity.
Qed.

Lemma played_players (env : Env) (c : Contract) :
  players (played env c)
  = if decide (signerAccountId env ∈ players c)
    then players c else {[signerAccountId env]} ∪ players c.
Proof.
  unfold played, enrolled.
  destruct (Lottery_play _ _), (decide _); reflexivity.
Qed.

Lemma played_winner (env : Env) (c : Contract) :
  winner (played env c)
  = if Lottery_play (lottery c) (randomSeed env)
    then Some (signerAccountId env) else winner c.
Proof.
  unfold played, enrolled.
  destruct (Lottery_play _ _), (decide _); reflexivity.
Qed.

Lemma deposit_of_nonneg (env : Env) :
  u128 (attachedDeposit env) -> 0 <= deposit_of env.
Proof. intros [H0 _]. apply Number_nonneg. exact H0. Qed.

End Runs.

(** ** Administration: [reset], [configure_lottery], [configure_fee] *)

Section Administration.

Context `{Imports}.

(** C1 (amended). The three administrative calls are guarded by
    [assertSelf], which compares the caller with the contract's own
    account, not with [owner]: called by any account other than the
    contract's own, [reset], [configure_lottery] and [configure_fee] fail
    with Unauthorized and have changed nothing when they fail; called by
    the contract's own account, [reset] succeeds, and [configure_lottery]
    and [configure_fee] never fail with Unauthorized and succeed, storing
    the new configuration, whenever the lottery or the fee strategy accepts
    the argument. *)
Theorem C1_admin_calls_require_self
    (env : Env) (vm : Vm) (chance : Chance) (strategy : StrategyType) :
  (~ is_self env ->
   reset env vm = (Thrown unauthorized, vm)
   /\ configure_lottery env chance vm = (Thrown unauthorized, vm)
   /\ configure_fee env strategy vm = (Thrown unauthorized, vm))
  /\ (is_self env ->
      reset env vm
      = (Returned tt,
         {| this := fresh (this vm); receipt := receipt vm;
            promises := promises vm |})
      /\ fst (configure_lottery env chance vm) <> Thrown unauthorized
      /\ fst (configure_fee env strategy vm) <> Thrown unauthorized
      /\ (forall l,
             Lottery_configure (lottery (this vm)) chance = Some l ->
             configure_lottery env chance vm
             = (Returned true,
                {| this := set_lottery l (this vm); receipt := receipt vm;
                   promises := promises vm |}))
      /\ (forall fs,
             FeeStrategy_new strategy = Some fs ->
             configure_fee env strategy vm
             = (Returned true,
                {| this := set_feeStrategy fs (this vm);
                   receipt := receipt vm; promises := promises vm |}))).
Proof.
  split.
  - intros Hs. repeat split.
    + apply reset_other, Hs.
    + apply configure_lottery_other, Hs.
    + apply configure_fee_other, Hs.
  - intros Hs. split; [apply reset_self, Hs |].
    rewrite (configure_lottery_self env chance vm Hs).
    rewrite (configure_fee_self env strategy vm Hs).
    repeat split.
    + destruct (Lottery_configure _ _); simpl; discriminate.
    + destruct (FeeStrategy_new _); simpl; discriminate.
    + intros l Hl. rewrite Hl. reflexivity.
    + intros fs Hfs. rewrite Hfs. reflexivity.
Qed.

End Administration.

(** C1 as the specification words it fails both ways: the owner is
    refused by all three calls, and the contract's own account, which is
    not the owner, is served. *)
Lemma C1_owner_refused_contract_served :
  let c := constructor "owner.testnet" in
  let by_owner := Reference.env "owner.testnet" 0 Reference.losing_seed in
  let by_contract :=
    Reference.env Reference.contract_account 0 Reference.losing_seed in
  (predecessorAccountId by_owner = owner c
   /\ reset by_owner (start c) = (Thrown unauthorized, start c)
   /\ configure_lottery by_owner (1 # 2)%Q (start c)
      = (Thrown unauthorized, start c)
   /\ configure_fee by_owner Reference.Linear (start c)
      = (Thrown unauthorized, start c))
  /\ (predecessorAccountId by_contract <> owner c
      /\ fst (reset by_contract (start c)) = Returned tt
      /\ fst (configure_lottery by_contract (1 # 2)%Q (start c))
         = Returned true
      /\ fst (configure_fee by_contract Reference.Linear (start c))
         = Returned true).
Proof.
  cbv zeta. repeat split; try reflexivity. intros Heq. discriminate Heq.
Qed.

Lemma C1_admin_calls_require_self_witness :
  let c := constructor "owner.testnet" in
  let by_owner := Reference.env "owner.testnet" 0 Reference.losing_seed in
  let by_contract :=
    Reference.env Reference.contract_account 0 Reference.losing_seed in
  reset by_owner (start c) = (Thrown unauthorized, start c)
  /\ reset by_contract (start c)
     = (Returned tt,
        {| this := fresh c; receipt := []; promises := 0 |}).
Proof.
  intros c by_owner by_contract. split.
  - apply (proj1 (C1_admin_calls_require_self
                    by_owner (start c) (1 # 2)%Q Reference.Linear)).
    intros Heq. discriminate Heq.
  - apply (proj2 (C1_admin_calls_require_self
                    by_contract (start c) (1 # 2)%Q Reference.Linear)).
    reflexivity.
Defined.

(** ** The winner of an epoch *)

Section Winner.

Context `{Imports}.

Lemma call_inactive_in_epoch (ec : Env * Call) (c : Contract) :
  in_epoch ec -> active c = false ->
  active (call (fst ec) (snd ec) c) = false
  /\ winner (call (fst ec) (snd ec) c) = winner c.
Proof.
  intros [Hcl | Hcl] Ha; rewrite Hcl.
  - destruct (call_play (fst ec) c) as [-> | (Hact & _)]; [auto |].
    congruence.
  - rewrite call_on_payout_complete.
    destruct (is_self_dec _); simpl; auto.
Qed.

Lemma run_inactive_in_epoch (calls : list (Env * Call)) (c : Contract) :
  Forall in_epoch calls -> active c = false ->
  active (run c calls) = false /\ winner (run c calls) = winner c.
Proof.
  intros Hall. revert c.
  induction Hall as [| ec calls Hec _ IH]; intros c Ha; [auto |].
  destruct (call_inactive_in_epoch ec c Hec Ha) as [Ha' Hw'].
  destruct (IH _ Ha') as [Ha'' Hw'']. simpl. split; congruence.
Qed.

(** C2 (amended). Within one epoch [winner] is written by winning plays
    only, and by each of them: a play changes [winner] only if it was
    accepted while [active] was still true and its draw won, and then
    [winner] is its caller, whether or not an earlier play of the epoch
    had already won; [on_payout_complete] never changes [winner]; and once
    [active] is false, no sequence of [play] and [on_payout_complete] calls
    changes [winner]. *)
Theorem C2_winner_settled_once_inactive
    (c : Contract) (calls : list (Env * Call)) :
  Forall in_epoch calls ->
  (active c = false -> winner (run c calls) = winner c)
  /\ (forall env,
         winner (call env Play c) <> winner c ->
         active c = true
         /\ Lottery_play (lottery c) (randomSeed env) = true
         /\ winner (call env Play c) = Some (signerAccountId env))
  /\ (forall env, winner (call env OnPayoutComplete c) = winner c).
Proof.
  intros Hall. split; [| split].
  - intros Ha. apply run_inactive_in_epoch; assumption.
  - intros env Hchg.
    destruct (call_play env c) as [Heq | (Ha & _ & Heq)]; rewrite Heq in *.
    + contradiction.
    + rewrite played_winner in *.
      destruct (Lottery_play _ _); [auto | contradiction].
  - intros env. rewrite call_on_payout_complete.
    destruct (is_self_dec _); reflexivity.
Qed.

End Winner.

(** C2 as the specification words it fails: two plays of one epoch win in
    turn, the second before the payout of the first is confirmed, and
    [winner] is assigned twice, to different callers. *)
Lemma C2_winner_assigned_twice :
  let c1 := call (Reference.env "alice" 0 Reference.winning_seed) Play
                 (constructor "owner.testnet") in
  let c2 := call (Reference.env "bob" 0 Reference.winning_seed) Play c1 in
  winner (constructor "owner.testnet") = None
  /\ winner c1 = Some "alice" /\ active c1 = true
  /\ winner c2 = Some "bob".
Proof. vm_compute. repeat split; reflexivity. Qed.

Lemma C2_winner_settled_once_inactive_witness :
  let c := run (constructor "owner.testnet")
               [ (Reference.env "alice" 0 Reference.winning_seed, Play);
                 (Reference.env Reference.contract_account 0
                                Reference.winning_seed, OnPayoutComplete) ] in
  let calls := [ (Reference.env "bob" 0 Reference.winning_seed, Play);
                 (Reference.env Reference.contract_account 0
                                Reference.winning_seed, OnPayoutComplete) ] in
  winner (run c calls) = winner c.
Proof.
  intros c calls.
  assert (Hcalls : Forall in_epoch calls).
  { constructor; [left; reflexivity |].
    constructor; [right; reflexivity | constructor]. }
  apply (proj1 (C2_winner_settled_once_inactive c calls Hcalls)).
  reflexivity.
Defined.

(** ** [play] *)

Section Play.

Context `{Imports}.

(** The three ways a play can go. *)
Lemma play_cases (env : Env) (vm : Vm) :
  (active (this vm) = false
   /\ play env vm
      = (Thrown (GameInactive
                   (inactiveMessage (winner (this vm)) (pot (this vm)))), vm))
  \/ (active (this vm) = true
      /\ signerAccountId env ∈ players (this vm)
      /\ deposit_of env < fee_of (this vm)
      /\ play env vm = (Thrown (InsufficientFee (fee_message (this vm))), vm))
  \/ (active (this vm) = true
      /\ (signerAccountId env ∈ players (this vm) ->
          fee_of (this vm) <= deposit_of env)
      /\ exists rc n,
          play env vm
          = (Returned tt,
             {| this := played env (this vm); receipt := receipt vm ++ rc;
                promises := n |})
          /\ (Lottery_play (lottery (this vm)) (randomSeed env) = true ->
              JS.nonempty (signerAccountId env) = true ->
              exists msg,
                rc = log msg :: payout env (pot (played env (this vm)))
                                       (promises vm))).
Proof.
  destruct (active (this vm)) eqn:Ha.
  - destruct (decide (signerAccountId env ∈ players (this vm)
                      /\ deposit_of env < fee_of (this vm))) as [[Hin Hlt] | Hok].
    + right; left. repeat split; try assumption.
      apply play_underpaid; assumption.
    + right; right. split; [reflexivity |].
      assert (Hfee : signerAccountId env ∈ players (this vm) ->
                     fee_of (this vm) <= deposit_of env).
      { intros Hin.
        destruct (Z_lt_le_dec (deposit_of env) (fee_of (this vm))); tauto. }
      split; [exact Hfee |]. apply play_accepted; assumption.
  - left. split; [reflexivity |]. apply play_inactive. exact Ha.
Qed.

(** C4. For a caller not yet in [players], a play never fails with
    InsufficientFee; in an active game it is accepted, inserts the caller
    into [players] and leaves [pot] as it was, whatever deposit is
    attached; in an inactive game it is rejected with GameInactive like
    every play, and nothing has changed. *)
Theorem C4_first_play_is_free (env : Env) (c : Contract) :
  signerAccountId env ∉ players c ->
  (forall msg, fst (play env (start c)) <> Thrown (InsufficientFee msg))
  /\ (active c = true ->
      exists vm,
        play env (start c) = (Returned tt, vm)
        /\ players (this vm) = {[signerAccountId env]} ∪ players c
        /\ signerAccountId env ∈ players (this vm)
        /\ pot (this vm) = pot c)
  /\ (active c = false ->
      exists msg, play env (start c) = (Thrown (GameInactive msg), start c)).
Proof.
  intros Hout.
  destruct (play_cases env (start c))
    as [(Ha & Hr) | [(_ & Hin & _) | (Ha & _ & rc & n & Hr & _)]];
    simpl in *.
  - rewrite Hr. simpl. repeat split.
    + intros msg Hc. discriminate Hc.
    + congruence.
    + intros _. eexists. reflexivity.
  - contradiction.
  - rewrite Hr. simpl. repeat split.
    + intros msg Hc. discriminate Hc.
    + intros _. eexists. split; [reflexivity |]. simpl.
      rewrite played_players, played_pot.
      destruct (decide _); [contradiction |].
      repeat split. set_solver.
    + congruence.
Qed.

(** C7. In an inactive game [play] fails with GameInactive, its message
    naming the winner and the pot, and every failure of [play], GameInactive
    or InsufficientFee, is raised with the contract and the receipt exactly
    as they were when the call began: [players], [pot], [lastPlayed] and
    [winner] have not been written. *)
Theorem C7_play_fails_before_mutation (env : Env) (vm : Vm) :
  (active (this vm) = false ->
   play env vm
   = (Thrown (GameInactive
                (template (winner (this vm)) +:+ " won "
                 +:+ pretty (pot (this vm)) +:+ ". Please reset the game.")),
      vm))
  /\ (forall e vm',
         play env vm = (Thrown e, vm') ->
         vm' = vm
         /\ ((active (this vm) = false /\ exists msg, e = GameInactive msg)
             \/ (active (this vm) = true /\ exists msg, e = InsufficientFee msg))).
Proof.
  split.
  - apply play_inactive.
  - intros e vm' Hrun.
    destruct (play_cases env vm)
      as [(Ha & Hr) | [(Ha & _ & _ & Hr) | (_ & _ & rc & n & Hr & _)]];
      rewrite Hr in Hrun; try discriminate Hrun;
      injection Hrun as <- <-; split; eauto.
Qed.

End Play.

Lemma C4_first_play_is_free_witness :
  let c := call (Reference.env "alice" 0 Reference.losing_seed) Play
                (constructor "owner.testnet") in
  let env := Reference.env "bob" (5 * 10 ^ 24) Reference.losing_seed in
  exists vm,
    play env (start c) = (Returned tt, vm)
    /\ players (this vm) = {[signerAccountId env]} ∪ players c
    /\ signerAccountId env ∈ players (this vm)
    /\ pot (this vm) = pot c.
Proof.
  intros c env.
  assert (Hout : signerAccountId env ∉ players c).
  { apply (bool_decide_unpack _). vm_compute. exact I. }
  apply (proj1 (proj2 (C4_first_play_is_free env c Hout))).
  reflexivity.
Defined.

Lemma C7_play_fails_before_mutation_witness :
  let c := run (constructor "owner.testnet")
               [ (Reference.env "alice" 0 Reference.winning_seed, Play);
                 (Reference.env Reference.contract_account 0
                                Reference.winning_seed, OnPayoutComplete) ] in
  let env := Reference.env "bob" 0 Reference.winning_seed in
  play env (start c)
  = (Thrown (GameInactive "alice won 1000000000000000000000000. Please reset the game."),
     start c).
Proof.
  intros c env.
  apply (proj1 (C7_play_fails_before_mutation env (start c))).
  reflexivity.
Defined.

(** ** Winning, and the confirmation of the payout *)

Section Payout.

Context `{Imports}.

Lemma nonempty_true (s : string) : s <> "" -> JS.nonempty s = true.
Proof.
  intros Hne. unfold JS.nonempty. apply String.eqb_neq in Hne.
  rewrite Hne. reflexivity.
Qed.

Lemma call_play_active (env : Env) (c : Contract) :
  active (call env Play c) = active c.
Proof.
  destruct (call_play env c) as [-> | (_ & _ & ->)]; [reflexivity |].
  apply played_active.
Qed.

Lemma run_plays_active (plays : list (Env * Call)) (c : Contract) :
  Forall (fun ec => snd ec = Play) plays ->
  active (run c plays) = active c.
Proof.
  intros Hall. revert c.
  induction Hall as [| ec plays Hec _ IH]; intros c; [reflexivity |].
  simpl. rewrite IH, Hec. apply call_play_active.
Qed.

(** C5. A play that is accepted and whose draw wins sets [winner] to its
    caller and leaves [active] true; when the caller's name is not empty it
    logs the win and schedules the transfer of the whole pot, as it stands
    after this play, to the winner, then the callback [on_payout_complete]
    on the contract's own account, and returns that promise. Plays alone
    never make the game inactive; [on_payout_complete] run by the contract
    does, and from then on every play fails with GameInactive. *)
Theorem C5_win_schedules_payout (env : Env) (c : Contract) (vm : Vm) :
  play env (start c) = (Returned tt, vm) ->
  Lottery_play (lottery c) (randomSeed env) = true ->
  winner (this vm) = Some (signerAccountId env)
  /\ active (this vm) = true
  /\ (signerAccountId env <> "" ->
      exists msg,
        receipt vm
        = [ log msg;
            promiseBatchCreate (signerAccountId env);
            promiseBatchActionTransfer 0 (pot (this vm));
            promiseThen 0 (currentAccountId env) "on_payout_complete" "{}"
                        0 XCC_GAS;
            promiseReturn 1 ])
  /\ (forall plays,
         Forall (fun ec => snd ec = Play) plays ->
         active (run (this vm) plays) = true)
  /\ (forall confirm,
         is_self confirm ->
         exists vm',
           on_payout_complete confirm (start (this vm)) = (Returned tt, vm')
           /\ active (this vm') = false
           /\ forall env',
               exists msg,
                 play env' (start (this vm'))
                 = (Thrown (GameInactive msg), start (this vm'))).
Proof.
  intros Hrun Hwin.
  destruct (play_cases env (start c))
    as [(_ & Hr) | [(_ & _ & _ & Hr) | (Ha & _ & rc & n & Hr & Hrc)]];
    rewrite Hr in Hrun; try discriminate Hrun.
  injection Hrun as <-. simpl in *.
  assert (Hact : active (played env c) = true)
    by (rewrite played_active; exact Ha).
  split; [| split; [| split; [| split]]].
  - rewrite played_winner, Hwin. reflexivity.
  - exact Hact.
  - intros Hne. destruct (Hrc Hwin (nonempty_true _ Hne)) as [msg ->].
    exists msg. reflexivity.
  - intros plays Hall. rewrite run_plays_active by exact Hall. exact Hact.
  - intros confirm Hs. eexists. split; [apply on_payout_complete_self, Hs |].
    split; [reflexivity |].
    intros env'. eexists. apply play_inactive. reflexivity.
Qed.

(** C6. [on_payout_complete] called by any account other than the
    contract's own fails with Unauthorized, and nothing has changed when it
    fails; called by the contract itself it sets [active] to false and
    touches no other field; and no other call ever turns [active] from true
    to false. *)
Theorem C6_only_confirmation_deactivates (env : Env) (vm : Vm) :
  (~ is_self env -> on_payout_complete env vm = (Thrown unauthorized, vm))
  /\ (is_self env ->
      exists vm',
        on_payout_complete env vm = (Returned tt, vm')
        /\ active (this vm') = false
        /\ this vm' = set_active false (this vm))
  /\ (forall cl c,
         active c = true -> active (call env cl c) = false ->
         cl = OnPayoutComplete /\ is_self env).
Proof.
  split; [| split].
  - apply on_payout_complete_other.
  - intros Hs. eexists. split; [apply on_payout_complete_self, Hs |].
    split; reflexivity.
  - intros cl c Ha Hoff. destruct cl as [| chance | strategy | |].
    + rewrite call_play_active in Hoff. congruence.
    + destruct (call_configure_lottery env chance c) as [Heq | [l Heq]];
        rewrite Heq in Hoff; simpl in Hoff; congruence.
    + destruct (call_configure_fee env strategy c) as [Heq | [fs Heq]];
        rewrite Heq in Hoff; simpl in Hoff; congruence.
    + rewrite call_reset in Hoff.
      destruct (is_self_dec env); simpl in Hoff; congruence.
    + rewrite call_on_payout_complete in Hoff.
      destruct (is_self_dec env) as [Hs | Hs]; [auto | congruence].
Qed.

End Payout.

Lemma C5_win_schedules_payout_witness :
  let c := constructor "owner.testnet" in
  let env := Reference.env "alice" 0 Reference.winning_seed in
  let vm := snd (play env (start c)) in
  winner (this vm) = Some "alice" /\ active (this vm) = true.
Proof.
  intros c env vm.
  assert (Hrun : play env (start c) = (Returned tt, vm)) by reflexivity.
  assert (Hdraw : Lottery_play (lottery c) (randomSeed env) = true)
    by reflexivity.
  pose proof (C5_win_schedules_payout env c vm Hrun Hdraw) as Hwin.
  split; [exact (proj1 Hwin) | exact (proj1 (proj2 Hwin))].
Defined.

Lemma C6_only_confirmation_deactivates_witness :
  let c := constructor "owner.testnet" in
  let env := Reference.env "mallory" 0 Reference.losing_seed in
  on_payout_complete env (start c) = (Thrown unauthorized, start c).
Proof.
  intros c env.
  apply (proj1 (C6_only_confirmation_deactivates env (start c))).
  intros Heq. discriminate Heq.
Defined.

(** ** The pot and the epoch *)

Section Pot.

Context `{Imports}.

(** C9. A reset that passes [assertSelf] empties [players], sets [winner]
    and [lastPlayed] to the empty string, [pot] to [ONE_NEAR] and [active]
    to true, and leaves [owner], [feeStrategy] and [lottery], and the
    receipt, as they were. *)
Theorem C9_reset_restores_epoch (env : Env) (vm : Vm) :
  is_self env ->
  exists vm',
    reset env vm = (Returned tt, vm')
    /\ players (this vm') = ∅
    /\ winner (this vm') = Some ""
    /\ lastPlayed (this vm') = Some ""
    /\ pot (this vm') = ONE_NEAR
    /\ active (this vm') = true
    /\ owner (this vm') = owner (this vm)
    /\ feeStrategy (this vm') = feeStrategy (this vm)
    /\ lottery (this vm') = lottery (this vm)
    /\ receipt vm' = receipt vm.
Proof.
  intros Hs. eexists. split; [apply reset_self, Hs |].
  simpl. repeat split.
Qed.

(** What one call can do to the pot: keep or raise it, or, for a reset,
    set it to [ONE_NEAR]. *)
Lemma call_pot (ec : Env * Call) (c : Contract) :
  well_formed ec ->
  pot c <= pot (call (fst ec) (snd ec) c)
  \/ (snd ec = Reset /\ pot (call (fst ec) (snd ec) c) = ONE_NEAR).
Proof.
  destruct ec as [env cl]. unfold well_formed. simpl. intros Hwf.
  destruct cl as [| chance | strategy | |].
  - left. destruct (call_play env c) as [-> | (_ & _ & ->)]; [lia |].
    rewrite played_pot. pose proof (deposit_of_nonneg env Hwf).
    destruct (decide _); lia.
  - left. destruct (call_configure_lottery env chance c) as [-> | [l ->]];
      simpl; lia.
  - left. destruct (call_configure_fee env strategy c) as [-> | [fs ->]];
      simpl; lia.
  - rewrite call_reset. destruct (is_self_dec env); [right | left]; simpl.
    + split; reflexivity.
    + lia.
  - left. rewrite call_on_payout_complete.
    destruct (is_self_dec env); simpl; lia.
Qed.

Lemma run_pot (calls : list (Env * Call)) (c : Contract) :
  Forall well_formed calls ->
  ONE_NEAR <= pot c -> ONE_NEAR <= pot (run c calls).
Proof.
  intros Hall. revert c.
  induction Hall as [| ec calls Hec _ IH]; intros c Hc; [exact Hc |].
  simpl. apply IH.
  destruct (call_pot ec c Hec) as [Hle | [_ Heq]]; lia.
Qed.

(** C10. A play never lowers the pot: an accepted play, winning or not,
    leaves it at its value plus the deposit added for an enrolled caller,
    and [on_payout_complete] leaves it as it is; a call that lowers the pot
    is a reset, which sets it to [ONE_NEAR]; and after any sequence of
    calls on a newly constructed contract the pot is at least
    [ONE_NEAR]. *)
Theorem C10_pot_never_below_base (o : string) (calls : list (Env * Call)) :
  Forall well_formed calls ->
  ONE_NEAR <= pot (run (constructor o) calls)
  /\ (forall env c,
         u128 (attachedDeposit env) -> pot c <= pot (call env Play c))
  /\ (forall env c vm,
         play env (start c) = (Returned tt, vm) ->
         pot (this vm)
         = if decide (signerAccountId env ∈ players c)
           then pot c + deposit_of env else pot c)
  /\ (forall env c, pot (call env OnPayoutComplete c) = pot c)
  /\ (forall ec c,
         well_formed ec ->
         pot (call (fst ec) (snd ec) c) < pot c ->
         snd ec = Reset /\ pot (call (fst ec) (snd ec) c) = ONE_NEAR).
Proof.
  intros Hall. split; [| split; [| split; [| split]]].
  - apply run_pot; [exact Hall | simpl; lia].
  - intros env c Hwf.
    destruct (call_pot (env, Play) c Hwf) as [Hle | [Hcl _]];
      [exact Hle | discriminate Hcl].
  - intros env c vm Hrun.
    destruct (play_cases env (start c))
      as [(_ & Hr) | [(_ & _ & _ & Hr) | (_ & _ & rc & n & Hr & _)]];
      rewrite Hr in Hrun; try discriminate Hrun.
    injection Hrun as <-. simpl. apply played_pot.
  - intros env c. rewrite call_on_payout_complete.
    destruct (is_self_dec env); reflexivity.
  - intros ec c Hwf Hlt. destruct (call_pot ec c Hwf) as [Hle | Hreset];
      [lia | exact Hreset].
Qed.

End Pot.

Lemma C9_reset_restores_epoch_witness :
  let c := call (Reference.env "alice" 0 Reference.winning_seed) Play
                (constructor "owner.testnet") in
  let env :=
    Reference.env Reference.contract_account 0 Reference.losing_seed in
  exists vm',
    reset env (start c) = (Returned tt, vm')
    /\ players (this vm') = ∅
    /\ winner (this vm') = Some ""
    /\ lastPlayed (this vm') = Some ""
    /\ pot (this vm') = ONE_NEAR
    /\ active (this vm') = true
    /\ owner (this vm') = owner (this (start c))
    /\ feeStrategy (this vm') = feeStrategy (this (start c))
    /\ lottery (this vm') = lottery (this (start c))
    /\ receipt vm' = receipt (start c).
Proof.
  intros c env. apply (C9_reset_restores_epoch env (start c)). reflexivity.
Defined.

Lemma C10_pot_never_below_base_witness :
  let calls :=
    [ (Reference.env "alice" 0 Reference.losing_seed, Play);
      (Reference.env "alice" (3 * 10 ^ 24) Reference.winning_seed, Play);
      (Reference.env Reference.contract_account 0 Reference.losing_seed,
       OnPayoutComplete);
      (Reference.env Reference.contract_account 0 Reference.losing_seed,
       Reset) ] in
  ONE_NEAR <= pot (run (constructor "owner.testnet") calls).
Proof.
  intros calls.
  assert (Hall : Forall well_formed calls).
  { repeat constructor; vm_compute; congruence. }
  exact (proj1 (C10_pot_never_below_base "owner.testnet" calls Hall)).
Defined.

(** ** The deposit of an enrolled caller

    [play] and [increasePot] read the attached deposit as
    [BigInt(Number(near.attachedDeposit()))]: above 2^53 the deposit they
    see is the attached one rounded to a double. *)

Section Deposit.

Context `{Imports}.

(** For an enrolled caller in an active game, the fee assertion fails
    exactly when the deposit, after its passage through [Number], is below
    the fee. *)
Lemma play_fee_check (env : Env) (vm : Vm) :
  active (this vm) = true ->
  signerAccountId env ∈ players (this vm) ->
  (exists msg, fst (play env vm) = Thrown (InsufficientFee msg))
  <-> JS.Number (attachedDeposit env) < fee_of (this vm).
Proof.
  intros Ha Hin. fold (JS.BigInt (JS.Number (attachedDeposit env))).
  fold (deposit_of env).
  destruct (play_cases env vm)
    as [(Ha' & _) | [(_ & _ & Hlt & Hrun) | (_ & Hfee & rc & n & Hrun & _)]].
  - congruence.
  - rewrite Hrun. simpl. split; [auto | eauto].
  - rewrite Hrun. simpl. split.
    + intros [msg Hmsg]. discriminate Hmsg.
    + intros Hlt. specialize (Hfee Hin). lia.
Qed.

(** An accepted play of an enrolled caller adds [Number(deposit)] to the
    pot. *)
Lemma play_enrolled_pot (env : Env) (vm vm' : Vm) :
  signerAccountId env ∈ players (this vm) ->
  play env vm = (Returned tt, vm') ->
  pot (this vm') = pot (this vm) + JS.Number (attachedDeposit env).
Proof.
  intros Hin Hrun.
  destruct (play_cases env vm)
    as [(_ & Hr) | [(_ & _ & _ & Hr) | (_ & _ & rc & n & Hr & _)]];
    rewrite Hr in Hrun; try discriminate Hrun.
  injection Hrun as <-. simpl. rewrite played_pot.
  destruct (decide _); [reflexivity | contradiction].
Qed.

End Deposit.

(** C3, at the input where it fails. Alice is enrolled, one player, so the
    fee is [calculate(1, ONE_NEAR)], one NEAR; she plays again and attaches
    exactly one NEAR, which is not less than the fee. [Number] rounds her
    deposit down by 16777216 yoctoNEAR, and the play fails with
    InsufficientFee. *)
Theorem C3_exact_fee_rejected :
  let c := call (Reference.env "alice" 0 Reference.losing_seed) Play
                (constructor "owner.testnet") in
  let env := Reference.env "alice" (10 ^ 24) Reference.losing_seed in
  active c = true
  /\ signerAccountId env ∈ players c
  /\ fee_of c = 10 ^ 24
  /\ ~ attachedDeposit env < fee_of c
  /\ deposit_of env = 999999999999999983222784
  /\ play env (start c)
     = (Thrown (InsufficientFee
                  "There are 1 players. Playing more than once now costs 1 NEAR"),
        start c).
Proof.
  cbv zeta. split; [reflexivity |]. split.
  { apply (bool_decide_unpack _). vm_compute. exact I. }
  split; [reflexivity |]. split; [vm_compute; congruence |].
  split; reflexivity.
Qed.

(** The other direction: with three players the fee is nine NEAR; a deposit
    one yoctoNEAR below the fee is rounded up above it, the play is
    accepted, and the pot gains more than was attached. *)
Example play_below_fee_accepted :
  let c := run (constructor "owner.testnet")
               [ (Reference.env "alice" 0 Reference.losing_seed, Play);
                 (Reference.env "bob" 0 Reference.losing_seed, Play);
                 (Reference.env "carol" 0 Reference.losing_seed, Play) ] in
  let env := Reference.env "alice" (9 * 10 ^ 24 - 1) Reference.losing_seed in
  let vm := snd (play env (start c)) in
  fee_of c = 9 * 10 ^ 24
  /\ attachedDeposit env < fee_of c
  /\ fst (play env (start c)) = Returned tt
  /\ pot (this vm) = pot c + 9000000000000000385875968.
Proof.
  cbv zeta. split; [reflexivity |]. split; [reflexivity |].
  split; reflexivity.
Qed.

(** C8, at the input where it fails. Alice is enrolled and plays again
    attaching two NEAR, above the fee of one NEAR: the play is accepted, and
    the pot grows by 1999999999999999966445568 yoctoNEAR, 33554432 less
    than she attached. *)
Theorem C8_pot_gains_rounded_deposit :
  let c := call (Reference.env "alice" 0 Reference.losing_seed) Play
                (constructor "owner.testnet") in
  let v := 2 * 10 ^ 24 in
  let env := Reference.env "alice" v Reference.losing_seed in
  let vm := snd (play env (start c)) in
  u128 v
  /\ signerAccountId env ∈ players c
  /\ fst (play env (start c)) = Returned tt
  /\ pot (this vm) = pot c + 1999999999999999966445568
  /\ pot (this vm) <> pot c + v.
Proof.
  cbv zeta. split; [vm_compute; split; congruence |]. split.
  { apply (bool_decide_unpack _). vm_compute. exact I. }
  split; [reflexivity |]. split; [reflexivity |].
  vm_compute. congruence.
Qed.

(** * Further properties of the contract *)

Section Shapes.

Context `{Imports}.

(** Every call leaves the contract in one of six shapes. *)
Lemma call_shapes (env : Env) (cl : Call) (c : Contract) :
  call env cl c = c
  \/ (cl = Play /\ active c = true
      /\ (signerAccountId env ∈ players c -> fee_of c <= deposit_of env)
      /\ call env cl c = played env c)
  \/ (exists chance l,
         cl = ConfigureLottery chance /\ is_self env
         /\ Lottery_configure (lottery c) chance = Some l
         /\ call env cl c = set_lottery l c)
  \/ (exists strategy fs,
         cl = ConfigureFee strategy /\ is_self env
         /\ FeeStrategy_new strategy = Some fs
         /\ call env cl c = set_feeStrategy fs c)
  \/ (cl = Reset /\ is_self env /\ call env cl c = fresh c)
  \/ (cl = OnPayoutComplete /\ is_self env
      /\ call env cl c = set_active false c).
Proof.
  destruct cl as [| chance | strategy | |].
  - destruct (call_play env c) as [Heq | (Ha & Hfee & Heq)]; [left; exact Heq |].
    right; left. auto.
  - unfold call, method. unfold bind.
    destruct (is_self_dec env) as [Hs | Hs].
    + rewrite configure_lottery_self by exact Hs.
      destruct (Lottery_configure _ _) as [l |] eqn:Hl; simpl.
      * right; right; left. exists chance, l. auto.
      * left. reflexivity.
    + rewrite configure_lottery_other by exact Hs. left. reflexivity.
  - unfold call, method. unfold bind.
    destruct (is_self_dec env) as [Hs | Hs].
    + rewrite configure_fee_self by exact Hs.
      destruct (FeeStrategy_new _) as [fs |] eqn:Hfs; simpl.
      * right; right; right; left. exists strategy, fs. auto.
      * left. reflexivity.
    + rewrite configure_fee_other by exact Hs. left. reflexivity.
  - rewrite call_reset. destruct (is_self_dec env) as [Hs | Hs].
    + right; right; right; right; left. auto.
    + left. reflexivity.
  - rewrite call_on_payout_complete. destruct (is_self_dec env) as [Hs | Hs].
    + right; right; right; right; right. auto.
    + left. reflexivity.
Qed.

Lemma played_owner (env : Env) (c : Contract) :
  owner (played env c) = owner c.
Proof.
  unfold played, enrolled.
  destruct (Lottery_play _ _), (decide _); reflexivity.
Qed.

Lemma played_lottery (env : Env) (c : Contract) :
  lottery (played env c) = lottery c.
Proof.
  unfold played, enrolled.
  destruct (Lottery_play _ _), (decide _); reflexivity.
Qed.

Lemma played_feeStrategy (env : Env) (c : Contract) :
  feeStrategy (played env c) = feeStrategy c.
Proof.
  unfold played, enrolled.
  destruct (Lottery_play _ _), (decide _); reflexivity.
Qed.

Lemma played_lastPlayed (env : Env) (c : Contract) :
  lastPlayed (played env c) = Some (signerAccountId env).
Proof.
  unfold played, enrolled.
  destruct (Lottery_play _ _), (decide _); reflexivity.
Qed.

(** A play that returns leaves the contract [played]. *)
Lemma play_returned (env : Env) (c : Contract) (vm : Vm) :
  play env (start c) = (Returned tt, vm) ->
  active c = true
  /\ (signerAccountId env ∈ players c -> fee_of c <= deposit_of env)
  /\ this vm = played env c.
Proof.
  intros Hrun.
  destruct (play_cases env (start c))
    as [(_ & Hr) | [(_ & _ & _ & Hr) | (Ha & Hfee & rc & n & Hr & _)]];
    rewrite Hr in Hrun; try discriminate Hrun.
  injection Hrun as <-. simpl in *. auto.
Qed.

Lemma signer_played (env : Env) (c : Contract) :
  signerAccountId env ∈ players (played env c).
Proof. rewrite played_players. destruct (decide _); set_solver. Qed.

Lemma players_played (env : Env) (c : Contract) :
  players c ⊆ players (played env c).
Proof. rewrite played_players. destruct (decide _); set_solver. Qed.

End Shapes.

(** ** Ownership and enrolment *)

Section Enrolment.

Context `{Imports}.

(** X1. No call, by any caller and with any argument, changes [owner]:
    after every sequence of calls [get_owner] still returns the owner the
    contract was constructed with. *)
Theorem X1_owner_is_immutable (o : string) (calls : list (Env * Call)) :
  view get_owner (run (constructor o) calls) = Returned o.
Proof.
  unfold view, get_owner, get. simpl.
  assert (Hrun : forall cs c, owner (run c cs) = owner c).
  { induction cs as [| [env cl] cs IH]; intros c; [reflexivity |].
    simpl. rewrite IH.
    destruct (call_shapes env cl c)
      as [-> | [(_ & _ & _ & ->) | [(ch & l & _ & _ & _ & ->)
         | [(st & fs & _ & _ & _ & ->) | [(_ & _ & ->) | (_ & _ & ->)]]]]];
      try reflexivity.
    apply played_owner. }
  rewrite Hrun. reflexivity.
Qed.

(** X2. After a play that returns, [get_has_played] answers true for the
    signer, and for every other account it answers what it answered
    before the play. *)
Theorem X2_enrolment_round_trip (env : Env) (c : Contract) (vm : Vm) :
  play env (start c) = (Returned tt, vm) ->
  view (get_has_played (signerAccountId env)) (this vm) = Returned true
  /\ (forall player,
         player <> signerAccountId env ->
         view (get_has_played player) (this vm)
         = view (get_has_played player) c).
Proof.
  intros Hrun. destruct (play_returned env c vm Hrun) as (_ & _ & ->).
  unfold view, get_has_played, bind, get, ret. simpl. split.
  - rewrite bool_decide_eq_true_2; [reflexivity | apply signer_played].
  - intros player Hne. f_equal. apply bool_decide_ext.
    rewrite played_players. destruct (decide _); [tauto |].
    rewrite elem_of_union, elem_of_singleton. tauto.
Qed.

Lemma call_players (ec : Env * Call) (c : Contract) :
  not_reset ec -> players c ⊆ players (call (fst ec) (snd ec) c).
Proof.
  destruct ec as [env cl]. unfold not_reset. simpl. intros Hnr.
  destruct (call_shapes env cl c)
    as [-> | [(_ & _ & _ & ->) | [(ch & l & _ & _ & _ & ->)
       | [(st & fs & _ & _ & _ & ->) | [(Hcl & _) | (_ & _ & ->)]]]]];
    simpl; try set_solver.
  apply players_played.
Qed.

(** X3. Only a reset removes a player: over any sequence of calls without a
    reset, [players] only grows, so an account for which [get_has_played]
    answers true keeps that answer. *)
Theorem X3_players_grow_until_reset
    (c : Contract) (calls : list (Env * Call)) :
  Forall not_reset calls ->
  players c ⊆ players (run c calls)
  /\ (forall player,
         view (get_has_played player) c = Returned true ->
         view (get_has_played player) (run c calls) = Returned true).
Proof.
  intros Hall.
  assert (Hsub : players c ⊆ players (run c calls)).
  { revert c. induction Hall as [| ec cs Hec _ IH]; intros c; [set_solver |].
    simpl. pose proof (call_players ec c Hec). specialize (IH (call ec.1 ec.2 c)).
    set_solver. }
  split; [exact Hsub |].
  intros player. unfold view, get_has_played, bind, get, ret. simpl.
  intros Hin. injection Hin as Hin. apply bool_decide_eq_true_1 in Hin.
  rewrite bool_decide_eq_true_2; [reflexivity | set_solver].
Qed.

(** X4. A first play raises the number of players by exactly one and a
    repeated play leaves it: after a play that returns, [get_fee] quotes
    the fee of the same strategy for one more player in the first case,
    and the fee it quoted before in the second. *)
Theorem X4_fee_follows_enrolment (env : Env) (c : Contract) (vm : Vm) :
  play env (start c) = (Returned tt, vm) ->
  size (players (this vm))
  = (if decide (signerAccountId env ∈ players c)
     then size (players c) else S (size (players c)))
  /\ view get_fee (this vm)
     = Returned
         (asNEAR
            (FeeStrategy_calculate
               (feeStrategy c)
               (if decide (signerAccountId env ∈ players c)
                then Z.of_nat (size (players c))
                else Z.of_nat (size (players c)) + 1)
               ONE_NEAR)
          +:+ " NEAR").
Proof.
  intros Hrun. destruct (play_returned env c vm Hrun) as (_ & _ & ->).
  assert (Hsize : size (players (played env c))
                  = (if decide (signerAccountId env ∈ players c)
                     then size (players c) else S (size (players c)))).
  { rewrite played_players. destruct (decide _) as [Hin | Hout];
      [reflexivity |].
    rewrite size_union by set_solver. rewrite size_singleton. reflexivity. }
  split; [exact Hsize |].
  unfold view, get_fee, fee, bind, get, ret. simpl.
  rewrite Hsize, played_feeStrategy.
  destruct (decide _); [reflexivity |].
  rewrite Nat2Z.inj_succ. unfold Z.succ. reflexivity.
Qed.

End Enrolment.

(** ** [Number], further *)

(** The parts of a number that has more than 53 bits. *)
Lemma round53_parts (x : Z) :
  0 < Z.log2 x - 52 ->
  let e := Z.log2 x - 52 in
  let q := x / 2 ^ e in
  let r := x mod 2 ^ e in
  x = q * 2 ^ e + r /\ 0 <= r < 2 ^ e /\ 2 ^ e = 2 * 2 ^ (e - 1)
  /\ 0 < 2 ^ (e - 1) /\ 2 ^ 52 <= q < 2 ^ 53
  /\ 2 ^ Z.log2 x = 2 ^ 52 * 2 ^ e.
Proof.
  intros He e q r.
  assert (Hx : 0 < x).
  { destruct (Z_lt_le_dec 0 x) as [Hp | Hn]; [exact Hp |].
    rewrite Z.log2_nonpos in He by exact Hn. lia. }
  assert (Hpe : 0 < 2 ^ e) by (apply Z.pow_pos_nonneg; lia).
  assert (Hsplit : 2 ^ e = 2 * 2 ^ (e - 1)).
  { replace e with (1 + (e - 1)) at 1 by lia.
    rewrite Z.pow_add_r by lia. reflexivity. }
  assert (Hlog : 2 ^ Z.log2 x = 2 ^ 52 * 2 ^ e).
  { rewrite <- Z.pow_add_r by lia. f_equal. unfold e. lia. }
  pose proof (Z.log2_spec x Hx) as [Hlo Hhi].
  replace (Z.succ (Z.log2 x)) with (1 + Z.log2 x) in Hhi by lia.
  rewrite Z.pow_add_r in Hhi by lia. rewrite Hlog in Hlo, Hhi.
  pose proof (Z.div_mod x (2 ^ e) ltac:(lia)) as Hdm.
  pose proof (Z.mod_pos_bound x (2 ^ e) Hpe) as Hr.
  fold q in Hdm. fold r in Hdm, Hr.
  repeat split; try lia.
  - apply Z.div_le_lower_bound; lia.
  - apply Z.div_lt_upper_bound; [lia |]. change (2 ^ 1) with 2 in Hhi. lia.
Qed.

(** Rounding moves a number by at most half the spacing of the doubles
    around it. *)
Lemma round53_error (x : Z) :
  0 <= x -> 2 * Z.abs (JS.round53 x - x) <= 2 ^ (Z.log2 x - 52).
Proof.
  intros Hx. unfold JS.round53.
  destruct (Z.log2 x - 52 <=? 0) eqn:He.
  - rewrite Z.sub_diag. change (2 * Z.abs 0) with 0. apply Z.pow_nonneg. lia.
  - apply Z.leb_gt in He.
    destruct (round53_parts x He) as (Hdm & Hr & Hsplit & Hhalf & _).
    set (e := Z.log2 x - 52) in *. set (q := x / 2 ^ e) in *.
    set (r := x mod 2 ^ e) in *.
    destruct (2 ^ (e - 1) <? r) eqn:Hgt; cbn [orb andb].
    + apply Z.ltb_lt in Hgt. lia.
    + apply Z.ltb_ge in Hgt. destruct (r =? 2 ^ (e - 1)) eqn:Heq; cbn [orb andb].
      * apply Z.eqb_eq in Heq. destruct (Z.odd q); lia.
      * lia.
Qed.

(** Rounding stays between the powers of two that enclose the number. *)
Lemma round53_binade (x : Z) :
  0 < x -> 2 ^ Z.log2 x <= JS.round53 x <= 2 * 2 ^ Z.log2 x.
Proof.
  intros Hx. unfold JS.round53.
  pose proof (Z.log2_spec x Hx) as [Hlo Hhi].
  replace (Z.succ (Z.log2 x)) with (1 + Z.log2 x) in Hhi by lia.
  rewrite Z.pow_add_r in Hhi by (pose proof (Z.log2_nonneg x); lia).
  change (2 ^ 1) with 2 in Hhi.
  destruct (Z.log2 x - 52 <=? 0) eqn:He; [lia |].
  apply Z.leb_gt in He.
  destruct (round53_parts x He) as (Hdm & Hr & Hsplit & Hhalf & Hq & Hlog).
  set (e := Z.log2 x - 52) in *. set (q := x / 2 ^ e) in *.
  set (r := x mod 2 ^ e) in *. rewrite Hlog.
  assert (Hpe : 0 < 2 ^ e) by lia.
  destruct (_ || _); nia.
Qed.

(** Rounding keeps the order. *)
Lemma round53_monotone (x y : Z) :
  0 <= x <= y -> JS.round53 x <= JS.round53 y.
Proof.
  intros [Hx Hxy].
  destruct (Z.eq_dec x 0) as [-> | Hx0].
  { change (JS.round53 0) with 0.
    unfold JS.round53. destruct (Z.log2 y - 52 <=? 0) eqn:He; [lia |].
    apply Z.leb_gt in He.
    destruct (round53_parts y He) as (_ & _ & _ & _ & Hq & _).
    assert (0 < 2 ^ (Z.log2 y - 52)) by (apply Z.pow_pos_nonneg; lia).
    destruct (_ || _); nia. }
  assert (Hxp : 0 < x) by lia. assert (Hyp : 0 < y) by lia.
  pose proof (Z.log2_le_mono x y Hxy) as Hlog.
  destruct (Z.eq_dec (Z.log2 x) (Z.log2 y)) as [Heq | Hne].
  - unfold JS.round53. rewrite Heq.
    destruct (Z.log2 y - 52 <=? 0) eqn:He; [exact Hxy |].
    apply Z.leb_gt in He.
    assert (Hex : 0 < Z.log2 x - 52) by lia.
    destruct (round53_parts x Hex) as (Hdx & Hrx & _ & _ & _ & _).
    destruct (round53_parts y He) as (Hdy & Hry & Hsplit & Hhalf & _ & _).
    rewrite Heq in Hdx, Hrx.
    set (e := Z.log2 y - 52) in *.
    set (qx := x / 2 ^ e) in *. set (rx := x mod 2 ^ e) in *.
    set (qy := y / 2 ^ e) in *. set (ry := y mod 2 ^ e) in *.
    assert (Hpe : 0 < 2 ^ e) by lia.
    assert (Hq : qx <= qy) by (apply Z.div_le_mono; lia).
    destruct (Z.eq_dec qx qy) as [Hqq | Hqlt].
    + rewrite Hqq in *. assert (Hr : rx <= ry) by lia.
      destruct (2 ^ (e - 1) <? rx) eqn:Hgx; cbn [orb andb].
      * apply Z.ltb_lt in Hgx.
        assert (Hgy : (2 ^ (e - 1) <? ry) = true) by (apply Z.ltb_lt; lia).
        rewrite Hgy. cbn [orb andb]. lia.
      * destruct (rx =? 2 ^ (e - 1)) eqn:Hex'; cbn [orb andb].
        -- apply Z.eqb_eq in Hex'. destruct (Z.odd qy); cbn [orb andb].
           ++ destruct (2 ^ (e - 1) <? ry) eqn:Hgy; cbn [orb andb]; [lia |].
              apply Z.ltb_ge in Hgy.
              assert (Hey : (ry =? 2 ^ (e - 1)) = true)
                by (apply Z.eqb_eq; lia).
              rewrite Hey. cbn [orb andb]. lia.
           ++ destruct (_ || _); nia.
        -- destruct (_ || _); nia.
    + assert (Hstep : (qx + 1) * 2 ^ e <= qy * 2 ^ e) by nia.
      destruct (_ || _); destruct (_ || _); nia.
  - pose proof (round53_binade x Hxp) as [_ Hux].
    pose proof (round53_binade y Hyp) as [Hly _].
    assert (Hpow : 2 * 2 ^ Z.log2 x <= 2 ^ Z.log2 y).
    { replace (2 * 2 ^ Z.log2 x) with (2 ^ (1 + Z.log2 x)).
      - apply Z.pow_le_mono_r; lia.
      - rewrite Z.pow_add_r by (pose proof (Z.log2_nonneg x); lia).
        reflexivity. }
    lia.
Qed.

Lemma Number_error (x : Z) :
  0 <= x -> 2 * Z.abs (JS.Number x - x) <= 2 ^ (Z.log2 x - 52).
Proof.
  intros Hx. unfold JS.Number.
  destruct (Z.eq_dec x 0) as [-> | Hne]; [vm_compute; congruence |].
  rewrite Z.sgn_pos, (Z.abs_eq x) by lia. rewrite Z.mul_1_l.
  apply round53_error. exact Hx.
Qed.

Lemma Number_monotone (x y : Z) :
  0 <= x <= y -> JS.Number x <= JS.Number y.
Proof.
  intros [Hx Hxy].
  destruct (Z.eq_dec x 0) as [-> | Hx0].
  - change (JS.Number 0) with 0. unfold JS.Number.
    destruct (Z.eq_dec y 0) as [-> | Hy0]; [vm_compute; congruence |].
    rewrite Z.sgn_pos, Z.abs_eq by lia. rewrite Z.mul_1_l.
    pose proof (round53_binade y ltac:(lia)) as [Hlo _].
    assert (0 < 2 ^ Z.log2 y)
      by (apply Z.pow_pos_nonneg; [lia | apply Z.log2_nonneg]).
    lia.
  - unfold JS.Number. rewrite !Z.sgn_pos, !Z.abs_eq by lia.
    rewrite !Z.mul_1_l. apply round53_monotone. lia.
Qed.

(** ** What is reachable *)

Section Reachable.

Context `{Imports}.

Lemma call_enrolled_or_empty (env : Env) (cl : Call) (c : Contract) :
  enrolled_or_empty c (winner c) ->
  enrolled_or_empty c (lastPlayed c) ->
  (lastPlayed c = None ->
   winner c = None /\ players c = ∅ /\ pot c = ONE_NEAR) ->
  let c' := call env cl c in
  enrolled_or_empty c' (winner c')
  /\ enrolled_or_empty c' (lastPlayed c')
  /\ (lastPlayed c' = None ->
      winner c' = None /\ players c' = ∅ /\ pot c' = ONE_NEAR).
Proof.
  intros Hw Hl Hn. cbv zeta.
  destruct (call_shapes env cl c)
    as [-> | [(_ & _ & _ & ->) | [(ch & l & _ & _ & _ & ->)
       | [(st & fs & _ & _ & _ & ->) | [(_ & _ & ->) | (_ & _ & ->)]]]]];
    try (split; [exact Hw | split; [exact Hl | exact Hn]]).
  - pose proof (players_played env c) as Hsub.
    pose proof (signer_played env c) as Hin.
    split; [| split].
    + intros s. rewrite played_winner.
      destruct (Lottery_play _ _).
      * intros Hs. injection Hs as <-. right. exact Hin.
      * intros Hs. destruct (Hw s Hs) as [-> | Hs']; [left | right];
          [reflexivity | apply Hsub, Hs'].
    + intros s. rewrite played_lastPlayed. intros Hs. injection Hs as <-.
      right. exact Hin.
    + rewrite played_lastPlayed. discriminate.
  - split; [| split].
    + intros s Hs. injection Hs as <-. left. reflexivity.
    + intros s Hs. injection Hs as <-. left. reflexivity.
    + simpl. discriminate.
Qed.

(** X5. In every state reached from a newly constructed contract, the
    winner and the last player, when they are set and not the empty
    string, are enrolled players; and as long as [lastPlayed] is still
    undefined, nobody has played or won and the pot is the base unit. *)
Theorem X5_winner_and_last_player_are_enrolled
    (o : string) (calls : list (Env * Call)) :
  let c := run (constructor o) calls in
  (forall w, winner c = Some w -> w = "" \/ w ∈ players c)
  /\ (forall p, lastPlayed c = Some p -> p = "" \/ p ∈ players c)
  /\ (lastPlayed c = None ->
      winner c = None /\ players c = ∅ /\ pot c = ONE_NEAR).
Proof.
  cbv zeta.
  assert (Hrun : forall cs c,
             enrolled_or_empty c (winner c) ->
             enrolled_or_empty c (lastPlayed c) ->
             (lastPlayed c = None ->
              winner c = None /\ players c = ∅ /\ pot c = ONE_NEAR) ->
             enrolled_or_empty (run c cs) (winner (run c cs))
             /\ enrolled_or_empty (run c cs) (lastPlayed (run c cs))
             /\ (lastPlayed (run c cs) = None ->
                 winner (run c cs) = None /\ players (run c cs) = ∅
                 /\ pot (run c cs) = ONE_NEAR)).
  { induction cs as [| [env cl] cs IH]; intros c Hw Hl Hn; [auto |].
    simpl. destruct (call_enrolled_or_empty env cl c Hw Hl Hn)
      as (Hw' & Hl' & Hn').
    apply IH; assumption. }
  apply Hrun.
  - intros s Hs. discriminate Hs.
  - intros s Hs. discriminate Hs.
  - intros _. repeat split.
Qed.

(** X6. Each call writes its own fields only: the lottery is changed by
    [configure_lottery] alone and the fee strategy by [configure_fee]
    alone, and the two configuration calls leave the players, the pot, the
    winner, the last player and the activity of the game untouched. *)
Theorem X6_calls_keep_to_their_fields (env : Env) (cl : Call) (c : Contract) :
  let c' := call env cl c in
  ((forall chance, cl <> ConfigureLottery chance) -> lottery c' = lottery c)
  /\ ((forall strategy, cl <> ConfigureFee strategy) ->
      feeStrategy c' = feeStrategy c)
  /\ ((exists chance, cl = ConfigureLottery chance)
      \/ (exists strategy, cl = ConfigureFee strategy) ->
      players c' = players c /\ pot c' = pot c /\ winner c' = winner c
      /\ lastPlayed c' = lastPlayed c /\ active c' = active c).
Proof.
  cbv zeta.
  destruct (call_shapes env cl c)
    as [-> | [(Hcl & _ & _ & ->) | [(ch & l & Hcl & _ & _ & ->)
       | [(st & fs & Hcl & _ & _ & ->) | [(Hcl & _ & ->) | (Hcl & _ & ->)]]]]];
    (split; [| split]).
  all: try (intros Hno;
            first [ reflexivity | apply played_lottery
                  | apply played_feeStrategy
                  | exfalso; eapply Hno; eassumption ]).
  all: intros [[ch' Hc] | [st' Hc]];
    first [ congruence | repeat split; reflexivity ].
Qed.

(** X7. A configuration accepted from the contract's own account is the
    one the next calls use: after [configure_fee], [get_fee] quotes the fee
    of the new strategy for the players already enrolled; after
    [configure_lottery], a play that returns has a winner exactly when the
    new lottery draws a win on the play's seed. *)
Theorem X7_configuration_takes_effect (self : Env) (c : Contract) :
  is_self self ->
  (forall strategy fs,
      FeeStrategy_new strategy = Some fs ->
      view get_fee (call self (ConfigureFee strategy) c)
      = Returned
          (asNEAR (FeeStrategy_calculate fs (Z.of_nat (size (players c)))
                                         ONE_NEAR)
           +:+ " NEAR"))
  /\ (forall chance l env vm,
         Lottery_configure (lottery c) chance = Some l ->
         play env (start (call self (ConfigureLottery chance) c))
         = (Returned tt, vm) ->
         winner (this vm)
         = if Lottery_play l (randomSeed env)
           then Some (signerAccountId env) else winner c).
Proof.
  intros Hs. split.
  - intros strategy fs Hfs.
    assert (Hcall : call self (ConfigureFee strategy) c = set_feeStrategy fs c).
    { unfold call, method. unfold bind.
      rewrite configure_fee_self by exact Hs. rewrite Hfs. reflexivity. }
    rewrite Hcall. reflexivity.
  - intros chance l env vm Hl Hrun.
    assert (Hcall : call self (ConfigureLottery chance) c = set_lottery l c).
    { unfold call, method. unfold bind.
      rewrite configure_lottery_self by exact Hs. simpl. rewrite Hl.
      reflexivity. }
    rewrite Hcall in Hrun.
    destruct (play_returned env _ vm Hrun) as (_ & _ & ->).
    rewrite played_winner. reflexivity.
Qed.

End Reachable.

(** ** What a play records with the host *)

Section Receipts.

Context `{Imports}.

Lemma nonempty_false (s : string) : JS.nonempty s = false -> s = "".
Proof.
  unfold JS.nonempty. intros Hs. apply negb_false_iff in Hs.
  apply String.eqb_eq. exact Hs.
Qed.

Lemma play_receipt_run (env : Env) (c : Contract) (vm : Vm) :
  play env (start c) = (Returned tt, vm) ->
  this vm = played env c /\ receipt vm = play_receipt env c.
Proof.
  intros Hrun. destruct (play_returned env c vm Hrun) as (Ha & Hfee & Hthis).
  split; [exact Hthis |]. clear Hthis. revert Hrun.
  unfold play_receipt, won_message, lost_message, played, enrolled.
  exec. rewrite Ha. simpl.
  destruct (decide _) as [Hin | Hout]; simpl.
  - fold (deposit_of env). fold (fee_of c).
    assert (Hge : (deposit_of env >=? fee_of c) = true).
    { rewrite Z.geb_leb. apply Z.leb_le. auto. }
    rewrite Hge. simpl.
    destruct (Lottery_play _ _); simpl;
      [destruct (JS.nonempty _); simpl |];
      intros Hrun; injection Hrun as <-; reflexivity.
  - destruct (Lottery_play _ _); simpl;
      [destruct (JS.nonempty _); simpl |];
      intros Hrun; injection Hrun as <-; reflexivity.
Qed.

(** X8. A play that returns records exactly one log line. If the draw is
    lost it records nothing else: no promise is created and nothing is
    transferred. If the draw is won by a signer with a non-empty name it
    records, after the log, one transfer of the pot to the signer and the
    callback [on_payout_complete] on the contract's own account; if the
    signer's name is empty, the win is logged, [winner] is the empty string
    and nothing is paid. *)
Theorem X8_receipt_of_a_play (env : Env) (c : Contract) (vm : Vm) :
  play env (start c) = (Returned tt, vm) ->
  let text := asNEAR (pot (this vm)) +:+ " NEAR" in
  (Lottery_play (lottery c) (randomSeed env) = false ->
   receipt vm
   = [ log (signerAccountId env
            +:+ " did not win.  The pot is currently " +:+ text) ])
  /\ (Lottery_play (lottery c) (randomSeed env) = true ->
      signerAccountId env <> "" ->
      receipt vm
      = [ log (signerAccountId env +:+ " won " +:+ text +:+ "!");
          promiseBatchCreate (signerAccountId env);
          promiseBatchActionTransfer 0 (pot (this vm));
          promiseThen 0 (currentAccountId env) "on_payout_complete" "{}"
                      0 XCC_GAS;
          promiseReturn 1 ])
  /\ (Lottery_play (lottery c) (randomSeed env) = true ->
      signerAccountId env = "" ->
      winner (this vm) = Some ""
      /\ receipt vm = [ log (" won " +:+ text +:+ "!") ]).
Proof.
  intros Hrun. destruct (play_receipt_run env c vm Hrun) as [-> ->].
  cbv zeta. unfold play_receipt, won_message, lost_message.
  split; [| split].
  - intros ->. reflexivity.
  - intros -> Hne. rewrite (nonempty_true _ Hne). reflexivity.
  - intros Hwin Hempty. rewrite played_winner, Hwin, Hempty. split; reflexivity.
Qed.

(** X9. A win does not lower the pot and does not close the game, so a
    second winning play that arrives before the confirmation is paid
    again: each of the two plays records a transfer of the whole pot as it
    stands after that play, and the second amount is at least the
    first. *)
Theorem X9_second_win_is_paid_again
    (env1 env2 : Env) (c : Contract) (vm1 vm2 : Vm) :
  play env1 (start c) = (Returned tt, vm1) ->
  play env2 (start (this vm1)) = (Returned tt, vm2) ->
  Lottery_play (lottery c) (randomSeed env1) = true ->
  Lottery_play (lottery c) (randomSeed env2) = true ->
  signerAccountId env1 <> "" ->
  signerAccountId env2 <> "" ->
  u128 (attachedDeposit env2) ->
  In (promiseBatchCreate (signerAccountId env1)) (receipt vm1)
  /\ In (promiseBatchActionTransfer 0 (pot (this vm1))) (receipt vm1)
  /\ In (promiseBatchCreate (signerAccountId env2)) (receipt vm2)
  /\ In (promiseBatchActionTransfer 0 (pot (this vm2))) (receipt vm2)
  /\ pot (this vm1) <= pot (this vm2).
Proof.
  intros Hrun1 Hrun2 Hwin1 Hwin2 Hne1 Hne2 Hwf.
  destruct (play_receipt_run env1 c vm1 Hrun1) as [Hthis1 Hrc1].
  destruct (play_receipt_run env2 _ vm2 Hrun2) as [Hthis2 Hrc2].
  assert (Hlot : lottery (this vm1) = lottery c)
    by (rewrite Hthis1; apply played_lottery).
  rewrite Hrc1, Hrc2. unfold play_receipt.
  rewrite Hlot, Hwin1, Hwin2.
  rewrite (nonempty_true _ Hne1), (nonempty_true _ Hne2).
  rewrite <- Hthis1, <- Hthis2. unfold payout. simpl.
  repeat split; try tauto.
  rewrite Hthis2, played_pot.
  pose proof (deposit_of_nonneg env2 Hwf). destruct (decide _); lia.
Qed.

End Receipts.

(** ** Epochs *)

Section Epochs.

Context `{Imports}.

(** X10. A reset from the contract's own account opens an epoch in which
    every account plays its first play free: whatever the state before and
    whatever is attached, the play returns, its signer is the only player,
    and the pot is the base unit. Resetting twice is resetting once. *)
Theorem X10_reset_opens_a_free_epoch (self env : Env) (c : Contract) :
  is_self self ->
  let c' := call self Reset c in
  (exists vm,
      play env (start c') = (Returned tt, vm)
      /\ players (this vm) = {[signerAccountId env]}
      /\ pot (this vm) = ONE_NEAR)
  /\ call self Reset c' = c'.
Proof.
  intros Hs. cbv zeta. rewrite !call_reset.
  destruct (is_self_dec self) as [_ | Hn]; [| contradiction].
  split; [| reflexivity].
  destruct (play_cases env (start (fresh c)))
    as [(Ha & _) | [(_ & Hin & _) | (_ & _ & rc & n & Hr & _)]];
    simpl in *.
  - discriminate Ha.
  - apply not_elem_of_empty in Hin. contradiction.
  - eexists. split; [exact Hr |]. simpl.
    rewrite played_players, played_pot. simpl.
    destruct (decide _) as [Hin | _].
    + apply not_elem_of_empty in Hin. contradiction.
    + split; [apply union_empty_r_L | reflexivity].
Qed.

Lemma call_inactive (ec : Env * Call) (c : Contract) :
  not_reset ec -> active c = false ->
  let c' := call (fst ec) (snd ec) c in
  active c' = false /\ players c' = players c /\ pot c' = pot c
  /\ winner c' = winner c /\ lastPlayed c' = lastPlayed c.
Proof.
  destruct ec as [env cl]. unfold not_reset. simpl. intros Hnr Ha.
  destruct (call_shapes env cl c)
    as [-> | [(_ & Hact & _) | [(ch & l & _ & _ & _ & ->)
       | [(st & fs & _ & _ & _ & ->) | [(Hcl & _) | (_ & _ & ->)]]]]];
    simpl; auto; congruence.
Qed.

(** X11. An inactive game is frozen until it is reset: over any sequence
    of calls without a reset, by any callers, the game stays inactive and
    its players, pot, winner and last player stay as they are; only the
    configuration can change. *)
Theorem X11_inactive_until_reset (c : Contract) (calls : list (Env * Call)) :
  Forall not_reset calls ->
  active c = false ->
  let c' := run c calls in
  view get_active c' = Returned false
  /\ players c' = players c /\ pot c' = pot c
  /\ winner c' = winner c /\ lastPlayed c' = lastPlayed c.
Proof.
  intros Hall. cbv zeta. unfold view, get_active, get. simpl. revert c.
  induction Hall as [| ec cs Hec _ IH]; intros c Ha;
    [simpl; rewrite Ha; auto |].
  destruct (call_inactive ec c Hec Ha) as (Ha' & Hp & Hpot & Hw & Hl).
  simpl. destruct (IH _ Ha') as (Hact & -> & -> & -> & ->).
  rewrite Hact. auto.
Qed.

(** X12. The pot never holds more than what it started from plus the
    deposits attached to the plays: after any sequence of calls with u128
    deposits on a contract whose pot is at least the base unit, the pot is
    at most the pot before plus the sum of the deposits, as [play] reads
    them, of the plays in the sequence. *)
Theorem X12_pot_bounded_by_deposits
    (c : Contract) (calls : list (Env * Call)) :
  Forall well_formed calls ->
  ONE_NEAR <= pot c ->
  pot (run c calls) <= pot c + attached_to_plays calls.
Proof.
  intros Hall. revert c.
  induction Hall as [| [env cl] cs Hec _ IH]; intros c Hc; [simpl; lia |].
  pose proof (deposit_of_nonneg env Hec) as Hdep.
  assert (Hstep : ONE_NEAR <= pot (call env cl c)
                  /\ pot (call env cl c) + attached_to_plays cs
                     <= pot c + attached_to_plays ((env, cl) :: cs)).
  { destruct (call_shapes env cl c)
      as [Heq | [(Hcl & _ & _ & Heq) | [(ch & l & Hcl & _ & _ & Heq)
         | [(st & fs & Hcl & _ & _ & Heq)
         | [(Hcl & _ & Heq) | (Hcl & _ & Heq)]]]]];
      rewrite Heq; try rewrite Hcl; simpl.
    - destruct cl; lia.
    - rewrite played_pot. destruct (decide _); lia.
    - lia.
    - lia.
    - lia.
    - lia. }
  destruct Hstep as [Hbase Hle]. specialize (IH _ Hbase).
  change (run c ((env, cl) :: cs)) with (run (call env cl c) cs). lia.
Qed.

End Epochs.

(** ** The deposit, rounded *)

Section Rounding.

Context `{Imports}.

(** X13. What an accepted play of an enrolled caller adds to the pot is
    within half a unit in the last place of the attached deposit: twice
    the distance between the new pot and the old pot plus the deposit is
    at most 2^(log2(deposit) - 52). *)
Theorem X13_pot_gain_within_half_ulp (env : Env) (c : Contract) (vm : Vm) :
  u128 (attachedDeposit env) ->
  signerAccountId env ∈ players c ->
  play env (start c) = (Returned tt, vm) ->
  2 * Z.abs (pot (this vm) - (pot c + attachedDeposit env))
  <= 2 ^ (Z.log2 (attachedDeposit env) - 52).
Proof.
  intros [H0 _] Hin Hrun.
  rewrite (play_enrolled_pot env (start c) vm Hin Hrun). simpl.
  replace (pot c + JS.Number (attachedDeposit env)
           - (pot c + attachedDeposit env))
    with (JS.Number (attachedDeposit env) - attachedDeposit env) by lia.
  apply Number_error. exact H0.
Qed.

(** X14. For a deposit of at most 2^53 the accounting is exact: in an
    active game a play of an enrolled caller fails with InsufficientFee
    exactly when the attached deposit is below the fee, and when it
    returns the pot has grown by exactly the attached deposit. *)
Theorem X14_exact_up_to_2p53 (env : Env) (c : Contract) :
  0 <= attachedDeposit env <= 2 ^ 53 ->
  active c = true ->
  signerAccountId env ∈ players c ->
  ((exists msg, fst (play env (start c)) = Thrown (InsufficientFee msg))
   <-> attachedDeposit env < fee_of c)
  /\ (forall vm,
         play env (start c) = (Returned tt, vm) ->
         pot (this vm) = pot c + attachedDeposit env).
Proof.
  intros Hsmall Ha Hin. split.
  - rewrite (play_fee_check env (start c) Ha Hin). simpl.
    rewrite (Number_exact _ Hsmall). reflexivity.
  - intros vm Hrun.
    rewrite (play_enrolled_pot env (start c) vm Hin Hrun). simpl.
    rewrite (Number_exact _ Hsmall). reflexivity.
Qed.

(** X15. Rounding keeps the order of deposits: where a play is accepted,
    the same signer's play with a larger deposit is accepted too, and
    leaves at least as much in the pot. *)
Theorem X15_larger_deposit_is_never_worse
    (env1 env2 : Env) (c : Contract) (vm1 : Vm) :
  signerAccountId env1 = signerAccountId env2 ->
  0 <= attachedDeposit env1 <= attachedDeposit env2 ->
  play env1 (start c) = (Returned tt, vm1) ->
  exists vm2,
    play env2 (start c) = (Returned tt, vm2)
    /\ pot (this vm1) <= pot (this vm2).
Proof.
  intros Hsigner Hle Hrun1.
  destruct (play_returned env1 c vm1 Hrun1) as (Ha & Hfee & ->).
  assert (Hdep : deposit_of env1 <= deposit_of env2)
    by (apply Number_monotone; exact Hle).
  destruct (play_cases env2 (start c))
    as [(Ha' & _) | [(_ & Hin & Hlt & _) | (_ & _ & rc & n & Hr & _)]];
    simpl in *.
  - congruence.
  - rewrite <- Hsigner in Hin. specialize (Hfee Hin). lia.
  - eexists. split; [exact Hr |]. simpl.
    rewrite !played_pot, Hsigner. destruct (decide _); lia.
Qed.

End Rounding.

(** ** The further properties on concrete calls *)

(** A run whose outcome is [Returned a] is the pair of that outcome and
    the machine it leaves. *)
Lemma run_returned `{Imports} {A} (r : Outcome A * Vm) (a : A) :
  fst r = Returned a -> r = (Returned a, snd r).
Proof. destruct r as [o vm]. simpl. intros ->. reflexivity. Qed.

Lemma X2_enrolment_round_trip_witness :
  let c := call (Reference.env "alice" 0 Reference.losing_seed) Play
                (constructor "owner.testnet") in
  let env := Reference.env "bob" 0 Reference.losing_seed in
  let vm := snd (play env (start c)) in
  view (get_has_played "bob") (this vm) = Returned true.
Proof.
  intros c env vm. subst vm.
  pose proof (run_returned (play env (start c)) tt
                ltac:(vm_compute; reflexivity)) as Hrun.
  exact (proj1 (X2_enrolment_round_trip env c _ Hrun)).
Defined.

Lemma X3_players_grow_until_reset_witness :
  let c := call (Reference.env "alice" 0 Reference.losing_seed) Play
                (constructor "owner.testnet") in
  let calls :=
    [ (Reference.env "bob" 0 Reference.winning_seed, Play);
      (Reference.env Reference.contract_account 0 Reference.losing_seed,
       OnPayoutComplete) ] in
  players c ⊆ players (run c calls).
Proof.
  intros c calls.
  assert (Hall : Forall not_reset calls).
  { constructor; [intros Hc; discriminate Hc |].
    constructor; [intros Hc; discriminate Hc | constructor]. }
  exact (proj1 (X3_players_grow_until_reset c calls Hall)).
Defined.

Lemma X4_fee_follows_enrolment_witness :
  let c := call (Reference.env "alice" 0 Reference.losing_seed) Play
                (constructor "owner.testnet") in
  let env := Reference.env "bob" 0 Reference.losing_seed in
  let vm := snd (play env (start c)) in
  view get_fee c = Returned "1 NEAR"
  /\ view get_fee (this vm) = Returned "4 NEAR".
Proof.
  intros c env vm. subst vm. split; [vm_compute; reflexivity |].
  pose proof (run_returned (play env (start c)) tt
                ltac:(vm_compute; reflexivity)) as Hrun.
  exact (proj2 (X4_fee_follows_enrolment env c _ Hrun)).
Defined.

Lemma X7_configuration_takes_effect_witness :
  let c := call (Reference.env "alice" 0 Reference.losing_seed) Play
                (constructor "owner.testnet") in
  let self :=
    Reference.env Reference.contract_account 0 Reference.losing_seed in
  view get_fee (call self (ConfigureFee Reference.Flat) c)
  = Returned "1 NEAR".
Proof.
  intros c self.
  assert (Hs : is_self self) by reflexivity.
  exact (proj1 (X7_configuration_takes_effect self c Hs)
               Reference.Flat Reference.Flat eq_refl).
Defined.

Lemma X8_receipt_of_a_play_witness :
  let c := constructor "owner.testnet" in
  let env := Reference.env "alice" 0 Reference.winning_seed in
  let vm := snd (play env (start c)) in
  receipt vm
  = [ log "alice won 1 NEAR!";
      promiseBatchCreate "alice";
      promiseBatchActionTransfer 0 (10 ^ 24);
      promiseThen 0 "lottery.testnet" "on_payout_complete" "{}"
                  0 20000000000000;
      promiseReturn 1 ].
Proof.
  intros c env vm. subst vm.
  pose proof (run_returned (play env (start c)) tt
                ltac:(vm_compute; reflexivity)) as Hrun.
  assert (Hwin : Lottery_play (lottery c) (randomSeed env) = true)
    by (vm_compute; reflexivity).
  assert (Hne : signerAccountId env <> "") by (intros Hc; discriminate Hc).
  exact (proj1 (proj2 (X8_receipt_of_a_play env c _ Hrun)) Hwin Hne).
Defined.

Lemma X9_second_win_is_paid_again_witness :
  let c := constructor "owner.testnet" in
  let env1 := Reference.env "alice" 0 Reference.winning_seed in
  let env2 := Reference.env "bob" 0 Reference.winning_seed in
  let vm1 := snd (play env1 (start c)) in
  let vm2 := snd (play env2 (start (this vm1))) in
  In (promiseBatchActionTransfer 0 (pot (this vm1))) (receipt vm1)
  /\ In (promiseBatchActionTransfer 0 (pot (this vm2))) (receipt vm2).
Proof.
  intros c env1 env2 vm1 vm2. subst vm2.
  pose proof (run_returned (play env1 (start c)) tt
                ltac:(vm_compute; reflexivity)) as Hrun1.
  pose proof (run_returned (play env2 (start (this vm1))) tt
                ltac:(vm_compute; reflexivity)) as Hrun2.
  assert (Hne1 : signerAccountId env1 <> "") by (intros Hc; discriminate Hc).
  assert (Hne2 : signerAccountId env2 <> "") by (intros Hc; discriminate Hc).
  assert (Hwf : u128 (attachedDeposit env2))
    by (vm_compute; split; congruence).
  assert (Hwin1 : Lottery_play (lottery c) (randomSeed env1) = true)
    by (vm_compute; reflexivity).
  assert (Hwin2 : Lottery_play (lottery c) (randomSeed env2) = true)
    by (vm_compute; reflexivity).
  pose proof (X9_second_win_is_paid_again
                env1 env2 c vm1 _ Hrun1 Hrun2 Hwin1 Hwin2
                Hne1 Hne2 Hwf) as Hpaid.
  split; [exact (proj1 (proj2 Hpaid)) |].
  exact (proj1 (proj2 (proj2 (proj2 Hpaid)))).
Defined.

Lemma X10_reset_opens_a_free_epoch_witness :
  let c := run (constructor "owner.testnet")
               [ (Reference.env "alice" 0 Reference.winning_seed, Play);
                 (Reference.env Reference.contract_account 0
                                Reference.winning_seed, OnPayoutComplete) ] in
  let self :=
    Reference.env Reference.contract_account 0 Reference.losing_seed in
  call self Reset (call self Reset c) = call self Reset c.
Proof.
  intros c self.
  assert (Hs : is_self self) by reflexivity.
  exact (proj2 (X10_reset_opens_a_free_epoch
                  self (Reference.env "bob" 0 Reference.losing_seed) c Hs)).
Defined.

Lemma X11_inactive_until_reset_witness :
  let c := run (constructor "owner.testnet")
               [ (Reference.env "alice" 0 Reference.winning_seed, Play);
                 (Reference.env Reference.contract_account 0
                                Reference.winning_seed, OnPayoutComplete) ] in
  let calls :=
    [ (Reference.env "bob" (5 * 10 ^ 24) Reference.winning_seed, Play);
      (Reference.env Reference.contract_account 0 Reference.losing_seed,
       ConfigureFee Reference.Linear) ] in
  view get_active (run c calls) = Returned false.
Proof.
  intros c calls.
  assert (Hall : Forall not_reset calls).
  { constructor; [intros Hc; discriminate Hc |].
    constructor; [intros Hc; discriminate Hc | constructor]. }
  assert (Ha : active c = false) by reflexivity.
  exact (proj1 (X11_inactive_until_reset c calls Hall Ha)).
Defined.

Lemma X12_pot_bounded_by_deposits_witness :
  let c := constructor "owner.testnet" in
  let calls :=
    [ (Reference.env "alice" 0 Reference.losing_seed, Play);
      (Reference.env "alice" (3 * 10 ^ 24) Reference.losing_seed, Play) ] in
  pot (run c calls) <= pot c + attached_to_plays calls.
Proof.
  intros c calls.
  assert (Hall : Forall well_formed calls).
  { repeat constructor; vm_compute; congruence. }
  assert (Hbase : ONE_NEAR <= pot c) by (vm_compute; congruence).
  exact (X12_pot_bounded_by_deposits c calls Hall Hbase).
Defined.

Lemma X13_pot_gain_within_half_ulp_witness :
  let c := call (Reference.env "alice" 0 Reference.losing_seed) Play
                (constructor "owner.testnet") in
  let env := Reference.env "alice" (2 * 10 ^ 24) Reference.losing_seed in
  let vm := snd (play env (start c)) in
  2 * Z.abs (pot (this vm) - (pot c + attachedDeposit env))
  <= 2 ^ (Z.log2 (attachedDeposit env) - 52).
Proof.
  intros c env vm.
  assert (Hwf : u128 (attachedDeposit env))
    by (vm_compute; split; congruence).
  assert (Hin : signerAccountId env ∈ players c).
  { apply (bool_decide_unpack _). vm_compute. exact I. }
  subst vm.
  pose proof (run_returned (play env (start c)) tt
                ltac:(vm_compute; reflexivity)) as Hrun.
  exact (X13_pot_gain_within_half_ulp env c _ Hwf Hin Hrun).
Defined.

Lemma X14_exact_up_to_2p53_witness :
  let c := call (Reference.env "alice" 0 Reference.losing_seed) Play
                (constructor "owner.testnet") in
  let env := Reference.env "alice" (2 ^ 53) Reference.losing_seed in
  (exists msg, fst (play env (start c)) = Thrown (InsufficientFee msg))
  <-> attachedDeposit env < fee_of c.
Proof.
  intros c env.
  assert (Hsmall : 0 <= attachedDeposit env <= 2 ^ 53)
    by (vm_compute; split; congruence).
  assert (Ha : active c = true) by reflexivity.
  assert (Hin : signerAccountId env ∈ players c).
  { apply (bool_decide_unpack _). vm_compute. exact I. }
  exact (proj1 (X14_exact_up_to_2p53 env c Hsmall Ha Hin)).
Defined.

Lemma X15_larger_deposit_is_never_worse_witness :
  let c := call (Reference.env "alice" 0 Reference.losing_seed) Play
                (constructor "owner.testnet") in
  let env1 := Reference.env "alice" (2 * 10 ^ 24) Reference.losing_seed in
  let env2 := Reference.env "alice" (3 * 10 ^ 24) Reference.winning_seed in
  let vm1 := snd (play env1 (start c)) in
  exists vm2,
    play env2 (start c) = (Returned tt, vm2)
    /\ pot (this vm1) <= pot (this vm2).
Proof.
  intros c env1 env2 vm1.
  assert (Hle : 0 <= attachedDeposit env1 <= attachedDeposit env2)
    by (vm_compute; split; congruence).
  subst vm1.
  pose proof (run_returned (play env1 (start c)) tt
                ltac:(vm_compute; reflexivity)) as Hrun.
  exact (X15_larger_deposit_is_never_worse env1 env2 c _ eq_refl Hle Hrun).
Defined.
